(** * preprocessing/lda.py: vocabulary construction, LDA training and querying

    A shallow embedding of [src/preprocessing/lda.py] (Python 2).  The script
    builds a gensim [Dictionary] from a stream of articles, trains an
    [LdaMulticore] model on word windows in batches, lists topics and tests the
    model on one sentence.

    Conventions of the embedding:
    - a Python 2 byte string ([str]) is a Stdlib [string]; a [unicode] string is
      a list of code points ([list N]);
    - Python dictionaries are stdpp [gmap]s; the order in which Python 2
      iterates over a dictionary is unspecified and is a parameter ([py_iter])
      of which only "it enumerates the same entries" is known;
    - calls into the collaborators (gensim, the corpus loader, standard output
      and the two artifact files) are recorded, in order, in a trace of events;
    - an exception that reaches the caller is a [Raise] result. *)

From Stdlib Require Import String Ascii NArith.
From stdpp Require Import base option list gmap sorting.

Local Open Scope nat_scope.

(** ** Text primitives *)

(** A [unicode] object: its code points. *)
Abbreviation ustring := (list N).

(** The bytes of a Python 2 [str]. *)
Definition bytes_of (s : string) : list N :=
  N_of_ascii <$> list_ascii_of_string s.

(** [(b & 0xC0) == 0x80]: a UTF-8 continuation byte. *)
Definition is_continuation (b : N) : bool := (N.land b 192 =? 128)%N.

(** The strict UTF-8 decoder behind [str.decode("utf-8")] in CPython 2.7:
    [None] stands for [UnicodeDecodeError].  Start bytes 0x80..0xC1 and
    0xF5..0xFF are invalid, a sequence must be complete, continuation bytes
    must be of the form 10xxxxxx, and over-long forms and code points above
    U+10FFFF are rejected (the surrogate range is let through, as CPython 2.7
    does). *)
Fixpoint utf8_decode (bs : list N) : option ustring :=
  match bs with
  | [] => Some []
  | b0 :: r0 =>
    if (b0 <? 128)%N then cons b0 <$> utf8_decode r0
    else if (194 <=? b0)%N && (b0 <=? 223)%N then
      match r0 with
      | b1 :: r1 =>
        if is_continuation b1
        then cons (N.shiftl (N.land b0 31) 6 + N.land b1 63)%N <$> utf8_decode r1
        else None
      | _ => None
      end
    else if (224 <=? b0)%N && (b0 <=? 239)%N then
      match r0 with
      | b1 :: b2 :: r2 =>
        if is_continuation b1 && is_continuation b2
           && negb ((b0 =? 224)%N && (b1 <? 160)%N)
        then cons (N.shiftl (N.land b0 15) 12 + N.shiftl (N.land b1 63) 6
                   + N.land b2 63)%N <$> utf8_decode r2
        else None
      | _ => None
      end
    else if (240 <=? b0)%N && (b0 <=? 244)%N then
      match r0 with
      | b1 :: b2 :: b3 :: r3 =>
        if is_continuation b1 && is_continuation b2 && is_continuation b3
           && negb ((b0 =? 240)%N && (b1 <? 144)%N)
           && negb ((b0 =? 244)%N && (143 <? b1)%N)
        then cons (N.shiftl (N.land b0 7) 18 + N.shiftl (N.land b1 63) 12
                   + N.shiftl (N.land b2 63) 6 + N.land b3 63)%N
               <$> utf8_decode r3
        else None
      | _ => None
      end
    else None
  end.

(** [s.decode("utf-8")] *)
Definition decode (s : string) : option ustring := utf8_decode (bytes_of s).

(** [Py_UNICODE_ISSPACE]: the code points [unicode.strip()] removes. *)
Definition is_space (c : N) : bool :=
  ((9 <=? c) && (c <=? 13) || (28 <=? c) && (c <=? 32)
   || (c =? 133) || (c =? 160) || (c =? 5760) || (c =? 6158)
   || (8192 <=? c) && (c <=? 8202) || (c =? 8232) || (c =? 8233)
   || (c =? 8239) || (c =? 8287) || (c =? 12288))%N.

(** [str.isspace] on one byte: tab, LF, VT, FF, CR and the space. *)
Definition is_ascii_space (c : N) : bool :=
  ((9 <=? c) && (c <=? 13) || (c =? 32))%N.

Fixpoint lstrip (s : ustring) : ustring :=
  match s with
  | c :: s' => if is_space c then lstrip s' else s
  | [] => []
  end.

Definition rstrip (s : ustring) : ustring := reverse (lstrip (reverse s)).

(** [u.strip()] *)
Definition strip (s : ustring) : ustring := rstrip (lstrip s).

(** [u.split(sep)] for a one-character separator: every occurrence of the
    separator ends a field, so the result is never empty and consecutive
    separators give empty fields. *)
Fixpoint split (sep : N) (s : ustring) : list ustring :=
  match s with
  | [] => [[]]
  | c :: s' =>
    if (c =? sep)%N then [] :: split sep s'
    else match split sep s' with
         | w :: ws => (c :: w) :: ws
         | [] => [[c]]
         end
  end.

(** The space character, the separator of every [split(" ")] in the script. *)
Definition SPACE : N := 32%N.

(** ** Python dictionaries *)

(** [dict(pairs)]: entries are stored from left to right, a later entry for a
    key replaces an earlier one. *)
Definition py_dict `{Countable K} {V} (l : list (K * V)) : gmap K V :=
  foldl (λ m kv, <[kv.1 := kv.2]> m) ∅ l.

(** [sorted(result.items())] of a dictionary keyed by integers: the keys are
    distinct, so the tuples are ordered by key. *)
Definition key_le (a b : nat * nat) : Prop := a.1 ≤ b.1.

#[global] Instance key_le_dec : RelDecision key_le.
Proof. intros a b. unfold key_le. apply _. Defined.

Definition sorted_items (l : list (nat * nat)) : list (nat * nat) :=
  merge_sort key_le l.

(** ** Data of the script *)

(** An article of the corpus (model.datasets): its text. *)
Record Article := { get_content_as_string : ustring }.

(** A token of a window and a window (model.datasets). *)
Record Token := { word : ustring }.
Record Window := { tokens : list Token }.

(** A tokenized document and a bag-of-words vector: (token id, count) pairs. *)
Abbreviation document := (list ustring).
Abbreviation bow := (list (nat * nat)).

(** [gensim.corpora.Dictionary]: the token → id mapping and the document
    frequency of every id.  (The counters [num_docs], [num_pos] and [num_nnz]
    do not influence any operation used by the script and are left out.) *)
Record Dictionary := {
  token2id : gmap ustring nat;
  dfs : gmap nat nat
}.

(** [gensim.corpora.Dictionary()] *)
Definition empty_dictionary : Dictionary := {| token2id := ∅; dfs := ∅ |}.

(** [gensim.models.ldamulticore.LdaMulticore]: its configuration and, in place
    of the numeric state owned by gensim, the batches it was updated with, in
    order. *)
Record LdaModel := {
  num_topics : nat;
  id2word : gmap nat ustring;
  workers : nat;
  chunksize : nat;
  updates : list (list bow)
}.

(** [lda_model.update(examples)] *)
Definition lda_update (m : LdaModel) (examples : list bow) : LdaModel :=
  {| num_topics := num_topics m; id2word := id2word m; workers := workers m;
     chunksize := chunksize m; updates := updates m ++ [examples] |}.

(** The module-level constants of the script, the two loop-local flush
    thresholds, and [LDA_WINDOW_SIZE], which comes from [config]. *)
Record Config := {
  LDA_CHUNK_SIZE : nat;
  COUNT_EXAMPLES_FOR_DICTIONARY : nat;
  COUNT_EXAMPLES_FOR_LDA : nat;
  LDA_COUNT_TOPICS : nat;
  LDA_COUNT_WORKERS : nat;
  IGNORE_WORDS_BELOW_COUNT : nat;
  update_every_n_articles : nat;
  update_every_n_windows : nat;
  LDA_WINDOW_SIZE : nat
}.

(** The values written in lda.py. *)
Definition lda_py (window_size : nat) : Config := {|
  LDA_CHUNK_SIZE := N.to_nat 10000;
  COUNT_EXAMPLES_FOR_DICTIONARY := N.to_nat 100000;
  COUNT_EXAMPLES_FOR_LDA := N.to_nat (1000 * 1000);
  LDA_COUNT_TOPICS := 100;
  LDA_COUNT_WORKERS := 3;
  IGNORE_WORDS_BELOW_COUNT := 4;
  update_every_n_articles := 1000;
  update_every_n_windows := N.to_nat 25000;
  LDA_WINDOW_SIZE := window_size
|}.

(** What the script prints. *)
Inductive message :=
| MsgRule
| MsgGeneratingDictionary
| MsgUpdatingAtArticle (i max : nat)
| MsgReachedMaxArticles (max : nat)
| MsgUpdatingRemainingArticles
| MsgLoadedUniqueWords (n : nat)
| MsgFilteringRareWords
| MsgFilteredUniqueWords (n : nat)
| MsgSavingDictionary
| MsgTrainingModel
| MsgLoadingDictionary
| MsgGeneratingId2word
| MsgInitializingLda
| MsgTraining
| MsgUpdatingAtWindow (i max : nat)
| MsgReachedMaxWindows (max : nat)
| MsgSaving
| MsgListOfTopics
| MsgTopic (i : nat) (model : LdaModel)
| MsgTokenSizeMismatch (len window_size : nat)
| MsgTopicsOfSentence (model : LdaModel) (b : bow)
| MsgNoOptionChosen.

(** The calls that leave the script, in the order they are made. *)
Inductive event :=
| Print (m : message)
| LoadArticles
| NextArticle
| LoadWindows
| NextWindow
| DictAddDocuments (docs : list document)
| DictFilterTokens (bad_ids : list nat)
| DictCompactify
| DictSave (d : Dictionary)
| DictLoad
| DictDoc2Bow (doc : document)
| LdaInit (topics nworkers chunk : nat) (id2w : gmap nat ustring)
| LdaUpdate (examples : list bow)
| LdaSave (m : LdaModel)
| LdaLoad
| LdaShowTopics
| LdaInfer (b : bow).

(** The exceptions that can end a run. *)
Inductive exn :=
| MissingSentence        (* Exception("Missing or empty 'sentence' argument.") *)
| UnicodeDecodeError     (* sentence.decode("utf-8") *)
| LoadError              (* an artifact file is absent *)
| KeyError               (* a failed dictionary subscript inside gensim *)
| ValueError.            (* LdaMulticore(...) given an empty id2word *)

Inductive result (A : Type) :=
| Ok (a : A)
| Raise (e : exn).
Arguments Ok {A} a.
Arguments Raise {A} e.

(** The files the script works on, and the trace of its calls. *)
Record world := {
  corpus : list Article;
  dictionary_file : option Dictionary;
  model_file : option LdaModel;
  trace : list event
}.

(** ** A state and exception monad over [world] *)

Definition M (A : Type) : Type := world → result A * world.

Definition ret {A} (a : A) : M A := λ w, (Ok a, w).

Definition bind {A B} (m : M A) (k : A → M B) : M B :=
  λ w, match m w with
       | (Ok a, w') => k a w'
       | (Raise e, w') => (Raise e, w')
       end.

Definition raise {A} (e : exn) : M A := λ w, (Raise e, w).

Notation "'do' x <- m ; k" := (bind m (λ x, k))
  (at level 10, x name, m at level 100, k at level 200).
Notation "m ;; k" := (bind m (λ _, k))
  (at level 100, k at level 200, right associativity).

(** The world after the calls [es]. *)
Definition with_trace (w : world) (es : list event) : world :=
  {| corpus := corpus w; dictionary_file := dictionary_file w;
     model_file := model_file w; trace := trace w ++ es |}.

Definition emit_all (es : list event) : M unit := λ w, (Ok tt, with_trace w es).

Definition emit (e : event) : M unit := emit_all [e].

Definition print (m : message) : M unit := emit (Print m).

Definition when (b : bool) (m : M unit) : M unit := if b then m else ret tt.

(** [load_articles(ARTICLES_FILEPATH)] *)
Definition load_articles : M (list Article) :=
  emit LoadArticles ;; λ w, (Ok (corpus w), w).

(** [Dictionary.load(LDA_DICTIONARY_FILEPATH)] *)
Definition load_dictionary : M Dictionary :=
  emit DictLoad ;;
  λ w, match dictionary_file w with
       | Some d => (Ok d, w)
       | None => (Raise LoadError, w)
       end.

(** [dictionary.save(LDA_DICTIONARY_FILEPATH)] *)
Definition save_dictionary (d : Dictionary) : M unit :=
  emit (DictSave d) ;;
  λ w, (Ok tt, {| corpus := corpus w; dictionary_file := Some d;
                  model_file := model_file w; trace := trace w |}).

(** [LdaMulticore.load(LDA_MODEL_FILEPATH)] *)
Definition load_model : M LdaModel :=
  emit LdaLoad ;;
  λ w, match model_file w with
       | Some m => (Ok m, w)
       | None => (Raise LoadError, w)
       end.

(** [lda_model.save(LDA_MODEL_FILEPATH)] *)
Definition save_model (m : LdaModel) : M unit :=
  emit (LdaSave m) ;;
  λ w, (Ok tt, {| corpus := corpus w; dictionary_file := dictionary_file w;
                  model_file := Some m; trace := trace w |}).

(** The command line after [parser.parse_args()]. *)
Record Args := {
  arg_dict : bool;
  arg_train : bool;
  arg_topics : bool;
  arg_test : bool;
  arg_sentence : option string
}.

(** Lifting a gensim operation that can fail on a dictionary subscript. *)
Definition or_raise {A} (e : exn) (o : option A) : M A :=
  match o with
  | Some a => ret a
  | None => raise e
  end.

(** What the script takes from its surroundings: the Unicode lower-case
    mapping of the code points above ASCII (a table of the interpreter), the
    order in which the interpreter iterates over the entries of a dictionary
    (unspecified in Python 2; it enumerates exactly the entries), and
    [load_windows(articles, window_size, only_labeled_windows)] of
    model.datasets. *)
Class Environment := {
  lower_table : N → N;
  py_iter : ∀ A : Type, list A → list A;
  py_iter_perm : ∀ (A : Type) (l : list A), py_iter A l ≡ₚ l;
  load_windows : list Article → nat → bool → list Window
}.

Section Script.
Context `{Environment}.

Definition lower_char (c : N) : N :=
  if (c <? 128)%N
  then (if (65 <=? c)%N && (c <=? 90)%N then c + 32 else c)%N
  else lower_table c.

(** [u.lower()] *)
Definition lower (s : ustring) : ustring := lower_char <$> s.

(** [d.items()], [d.keys()], [d.values()]: the three agree on the order. *)
Definition items `{Countable K} {V} (m : gmap K V) : list (K * V) :=
  py_iter _ (map_to_list m).
Definition keys `{Countable K} {V} (m : gmap K V) : list K := (items m).*1.
Definition values `{Countable K} {V} (m : gmap K V) : list V := (items m).*2.

(** *** gensim.corpora.Dictionary *)

(** The [counter] of [doc2bow]: occurrences of each token of a document. *)
Definition count_tokens (doc : document) : gmap ustring nat :=
  foldl (λ counter w, <[w := default 0 (counter !! w) + 1]> counter) ∅ doc.

(** [for w in missing: token2id[w] = len(token2id)] *)
Definition assign_ids (t2i : gmap ustring nat) (missing : list ustring)
  : gmap ustring nat :=
  foldl (λ t w, <[w := size t]> t) t2i missing.

(** [for tokenid in result: dfs[tokenid] = dfs.get(tokenid, 0) + 1] *)
Definition bump_dfs (df : gmap nat nat) (ids : list nat) : gmap nat nat :=
  foldl (λ df tokenid, <[tokenid := default 0 (df !! tokenid) + 1]> df) df ids.

(** [self.doc2bow(document, allow_update)]: the dictionary afterwards and
    the returned bag of words. *)
Definition doc2bow (self : Dictionary) (doc : document) (allow_update : bool)
  : Dictionary * bow :=
  let counter := count_tokens doc in
  let t2i :=
    if allow_update then
      let missing :=
        py_dict (filter (λ wf, token2id self !! wf.1 = None) (items counter)) in
      assign_ids (token2id self) (keys missing)
    else token2id self in
  let result :=
    py_dict (omap (λ wf, (λ i, (i, wf.2)) <$> t2i !! wf.1) (items counter)) in
  let df :=
    if allow_update then bump_dfs (dfs self) (keys result) else dfs self in
  ({| token2id := t2i; dfs := df |}, sorted_items (items result)).

(** [self.add_documents(documents)].  (gensim's safeguard that prunes a
    vocabulary of more than [prune_at] = 2,000,000 tokens is not part of
    this model.) *)
Definition add_documents (self : Dictionary) (documents : list document)
  : Dictionary :=
  foldl (λ d doc, (doc2bow d doc true).1) self documents.

(** [self.compactify()]: ids are reassigned in iteration order of
    [token2id]; [None] is the [KeyError] of [idmap[tokenid]]. *)
Definition compactify (self : Dictionary) : option Dictionary :=
  let idmap :=
    py_dict (zip (values (token2id self)) (seq 0 (size (token2id self)))) in
  t2i ← mapM (λ ti, (λ j, (ti.1, j)) <$> idmap !! ti.2) (items (token2id self));
  df ← mapM (λ if_, (λ j, (j, if_.2)) <$> idmap !! if_.1) (items (dfs self));
  Some {| token2id := py_dict t2i; dfs := py_dict df |}.

(** [self.filter_tokens(bad_ids)], which ends with [self.compactify()]. *)
Definition filter_tokens (self : Dictionary) (bad_ids : list nat)
  : option Dictionary :=
  let bad : gset nat := list_to_set bad_ids in
  compactify
    {| token2id := py_dict (filter (λ ti, ti.2 ∉ bad) (items (token2id self)));
       dfs := py_dict (filter (λ if_, if_.1 ∉ bad) (items (dfs self))) |}.

(** *** generate_dictionary *)

(** [article.get_content_as_string().lower().split(" ")] *)
Definition tokenize (article : Article) : document :=
  split SPACE (lower (get_content_as_string article)).

(** The [for i, article in enumerate(articles)] loop of
    [generate_dictionary], from index [i] on: the batch and the dictionary
    at the end, and the calls made. *)
Fixpoint dictionary_loop (cfg : Config) (i : nat) (articles : list Article)
    (articles_str : list document) (dictionary : Dictionary)
  : list document * Dictionary * list event :=
  match articles with
  | [] => (articles_str, dictionary, [])
  | article :: articles' =>
    let articles_str := articles_str ++ [tokenize article] in
    let flush := bool_decide (update_every_n_articles cfg ≤ length articles_str) in
    let ev :=
      if flush
      then [Print (MsgUpdatingAtArticle i (COUNT_EXAMPLES_FOR_DICTIONARY cfg));
            DictAddDocuments articles_str]
      else [] in
    let dictionary :=
      if flush then add_documents dictionary articles_str else dictionary in
    let articles_str := if flush then [] else articles_str in
    if bool_decide (COUNT_EXAMPLES_FOR_DICTIONARY cfg < i)
    then (articles_str, dictionary,
          NextArticle :: ev
            ++ [Print (MsgReachedMaxArticles (COUNT_EXAMPLES_FOR_DICTIONARY cfg))])
    else
      let '(a, d, ev') :=
        dictionary_loop cfg (S i) articles' articles_str dictionary in
      (a, d, NextArticle :: ev ++ ev')
  end.

(** [rare_ids]: the ids whose document frequency is below the threshold. *)
Definition rare_ids (cfg : Config) (dictionary : Dictionary) : list nat :=
  (filter (λ id_df, id_df.2 < IGNORE_WORDS_BELOW_COUNT cfg)
          (items (dfs dictionary))).*1.

Definition generate_dictionary (cfg : Config) : M unit :=
  print MsgRule ;;
  print MsgGeneratingDictionary ;;
  print MsgRule ;;
  do articles <- load_articles ;
  let '(articles_str, dictionary, events) :=
    dictionary_loop cfg 0 articles [] empty_dictionary in
  emit_all events ;;
  do dictionary <-
    (if bool_decide (0 < length articles_str)
     then print MsgUpdatingRemainingArticles ;;
          emit (DictAddDocuments articles_str) ;;
          ret (add_documents dictionary articles_str)
     else ret dictionary) ;
  print (MsgLoadedUniqueWords (size (token2id dictionary))) ;;
  print MsgFilteringRareWords ;;
  let rare := rare_ids cfg dictionary in
  emit (DictFilterTokens rare) ;;
  do dictionary <- or_raise KeyError (filter_tokens dictionary rare) ;
  emit DictCompactify ;;
  do dictionary <- or_raise KeyError (compactify dictionary) ;
  print (MsgFilteredUniqueWords (size (token2id dictionary))) ;;
  print MsgSavingDictionary ;;
  save_dictionary dictionary.

(** *** train_lda *)

(** [for word in dictionary.token2id: id2word[dictionary.token2id[word]] = word]
    (the subscript cannot fail on a key being iterated). *)
Definition build_id2word (dictionary : Dictionary) : gmap nat ustring :=
  foldl (λ i2w w,
           match token2id dictionary !! w with
           | Some i => <[i := w]> i2w
           | None => i2w
           end)
        ∅ (keys (token2id dictionary)).

(** The [for i, window in enumerate(windows)] loop of [train_lda]. *)
Fixpoint train_loop (cfg : Config) (dictionary : Dictionary) (i : nat)
    (windows : list Window) (examples : list bow) (lda_model : LdaModel)
  : list bow * LdaModel * list event :=
  match windows with
  | [] => (examples, lda_model, [])
  | window :: windows' =>
    let tokens_str := (λ token, lower (word token)) <$> tokens window in
    let b := (doc2bow dictionary tokens_str false).2 in
    let examples := examples ++ [b] in
    let flush := bool_decide (update_every_n_windows cfg ≤ length examples) in
    let ev :=
      if flush
      then [Print (MsgUpdatingAtWindow i (COUNT_EXAMPLES_FOR_LDA cfg));
            LdaUpdate examples]
      else [] in
    let lda_model := if flush then lda_update lda_model examples else lda_model in
    let examples := if flush then [] else examples in
    if bool_decide (COUNT_EXAMPLES_FOR_LDA cfg ≤ i)
    then (examples, lda_model,
          NextWindow :: DictDoc2Bow tokens_str :: ev
            ++ [Print (MsgReachedMaxWindows (COUNT_EXAMPLES_FOR_LDA cfg))])
    else
      let '(e, m, ev') :=
        train_loop cfg dictionary (S i) windows' examples lda_model in
      (e, m, NextWindow :: DictDoc2Bow tokens_str :: ev ++ ev')
  end.

(** [LdaMulticore(corpus=None, num_topics=..., id2word=..., workers=...,
    chunksize=...)]: a model that has not been updated yet.  The constructor
    takes the number of terms from [id2word] and raises [ValueError]
    ("cannot compute LDA over an empty collection (no terms)") when there is
    none; [train_lda] below has that check after the call is recorded. *)
Definition initial_model (cfg : Config) (dictionary : Dictionary) : LdaModel :=
  {| num_topics := LDA_COUNT_TOPICS cfg;
     id2word := build_id2word dictionary;
     workers := LDA_COUNT_WORKERS cfg;
     chunksize := LDA_CHUNK_SIZE cfg;
     updates := [] |}.

Definition train_lda (cfg : Config) : M unit :=
  print MsgRule ;;
  print MsgTrainingModel ;;
  print MsgRule ;;
  print MsgLoadingDictionary ;;
  do dictionary <- load_dictionary ;
  print MsgGeneratingId2word ;;
  let id2w := build_id2word dictionary in
  print MsgInitializingLda ;;
  emit (LdaInit (LDA_COUNT_TOPICS cfg) (LDA_COUNT_WORKERS cfg)
                (LDA_CHUNK_SIZE cfg) id2w) ;;
  when (bool_decide (size id2w = 0)) (raise ValueError) ;;
  let lda_model := initial_model cfg dictionary in
  print MsgTraining ;;
  do articles <- load_articles ;
  emit LoadWindows ;;
  let windows := load_windows articles (LDA_WINDOW_SIZE cfg) true in
  let '(_, lda_model, events) :=
    train_loop cfg dictionary 0 windows [] lda_model in
  emit_all events ;;
  print MsgSaving ;;
  save_model lda_model.

(** The calls of [train_lda] up to and including the constructor of the
    model, given the loaded dictionary. *)
Definition train_init_calls (cfg : Config) (dictionary : Dictionary)
  : list event :=
  [Print MsgRule; Print MsgTrainingModel; Print MsgRule;
   Print MsgLoadingDictionary; DictLoad; Print MsgGeneratingId2word;
   Print MsgInitializingLda;
   LdaInit (LDA_COUNT_TOPICS cfg) (LDA_COUNT_WORKERS cfg)
           (LDA_CHUNK_SIZE cfg) (build_id2word dictionary)].

(** The calls of [train_lda] before its loop, given the loaded dictionary. *)
Definition train_prologue (cfg : Config) (dictionary : Dictionary)
  : list event :=
  [Print MsgRule; Print MsgTrainingModel; Print MsgRule;
   Print MsgLoadingDictionary; DictLoad; Print MsgGeneratingId2word;
   Print MsgInitializingLda;
   LdaInit (LDA_COUNT_TOPICS cfg) (LDA_COUNT_WORKERS cfg)
           (LDA_CHUNK_SIZE cfg) (build_id2word dictionary);
   Print MsgTraining; LoadArticles; LoadWindows].

(** *** show_topics *)

Definition show_topics (cfg : Config) : M unit :=
  do dictionary <- load_dictionary ;
  do lda_model <- load_model ;
  emit LdaShowTopics ;;
  let topics := seq 0 (min (LDA_COUNT_TOPICS cfg) (num_topics lda_model)) in
  print MsgListOfTopics ;;
  emit_all ((λ i, Print (MsgTopic i lda_model)) <$> topics).

(** *** test_lda *)

Definition test_lda (cfg : Config) (sentence : option string) : M unit :=
  match sentence with
  | None => raise MissingSentence
  | Some s =>
    if bool_decide (String.length s < 1) then raise MissingSentence
    else
      do u <- or_raise UnicodeDecodeError (decode s) ;
      let sentence := split SPACE (strip (lower u)) in
      when (bool_decide (length sentence ≠ LDA_WINDOW_SIZE cfg))
           (print (MsgTokenSizeMismatch (length sentence) (LDA_WINDOW_SIZE cfg))) ;;
      do dictionary <- load_dictionary ;
      do lda_model <- load_model ;
      emit (DictDoc2Bow sentence) ;;
      let b := (doc2bow dictionary sentence false).2 in
      emit (LdaInfer b) ;;
      print (MsgTopicsOfSentence lda_model b)
  end.

(** *** main *)

Definition main (cfg : Config) (args : Args) : M unit :=
  when (arg_dict args) (generate_dictionary cfg) ;;
  when (arg_train args) (train_lda cfg) ;;
  when (arg_topics args) (show_topics cfg) ;;
  when (arg_test args) (test_lda cfg (arg_sentence args)) ;;
  when (negb (arg_dict args) && negb (arg_train args)
        && negb (arg_topics args) && negb (arg_test args))
       (print MsgNoOptionChosen).

End Script.

(** ** Observations on runs *)

(** The calls made by the run of [m] from [w]. *)
Definition events_of {A} (m : M A) (w : world) : list event :=
  drop (length (trace w)) (trace (m w).2).

(** The batches passed to [lda_model.update], in order. *)
Definition update_batches (es : list event) : list (list bow) :=
  omap (λ e, match e with LdaUpdate b => Some b | _ => None end) es.

(** The batches passed to [dictionary.add_documents], in order. *)
Definition added_batches (es : list event) : list (list document) :=
  omap (λ e, match e with DictAddDocuments b => Some b | _ => None end) es.

Fixpoint count_events (p : event → bool) (es : list event) : nat :=
  match es with
  | [] => 0
  | e :: es' => (if p e then 1 else 0) + count_events p es'
  end.

Definition is_next_article (e : event) : bool :=
  match e with NextArticle => true | _ => false end.

Definition is_mismatch_message (e : event) : bool :=
  match e with Print (MsgTokenSizeMismatch _ _) => true | _ => false end.

(** Events that touch gensim, the corpus or an artifact file: everything but
    printing. *)
Definition is_print (e : event) : bool :=
  match e with Print _ => true | _ => false end.

(** The informational message of [test_lda], if the token count calls for
    it. *)
Definition mismatch_events (cfg : Config) (toks : document) : list event :=
  if bool_decide (length toks ≠ LDA_WINDOW_SIZE cfg)
  then [Print (MsgTokenSizeMismatch (length toks) (LDA_WINDOW_SIZE cfg))]
  else [].

(** A byte string made of ASCII white space only. *)
Definition whitespace_only (s : string) : bool :=
  forallb is_ascii_space (bytes_of s).

(** The run ended with an exception. *)
Definition raises {A} (r : result A) : Prop := ∃ e, r = Raise e.

(** ⌈a / b⌉ *)
Definition ceil_div (a b : nat) : nat := (a + b - 1) / b.

(** ** Properties of a vocabulary *)

(** The number of documents of [docs] in which the token occurs. *)
Definition doc_freq (t : ustring) (docs : list document) : nat :=
  length (filter (λ doc, t ∈ doc) docs).

(** No two tokens share an id. *)
Definition ids_injective (t2i : gmap ustring nat) : Prop :=
  ∀ t1 t2 i, t2i !! t1 = Some i → t2i !! t2 = Some i → t1 = t2.

(** The ids in use are exactly 0, 1, ..., size - 1. *)
Definition ids_contiguous (t2i : gmap ustring nat) : Prop :=
  ∀ i, i < size t2i ↔ ∃ t, t2i !! t = Some i.

(** Every id with a document frequency belongs to a token. *)
Definition dfs_covered (d : Dictionary) : Prop :=
  ∀ i, is_Some (dfs d !! i) → ∃ t, token2id d !! t = Some i.

(** [d] is the vocabulary of the documents [docs]: its tokens are the tokens
    of [docs], numbered 0, 1, ... without repetition, and the document
    frequency recorded for a token is the number of documents of [docs]
    that contain it. *)
Definition vocabulary_of (d : Dictionary) (docs : list document) : Prop :=
  ids_injective (token2id d)
  ∧ ids_contiguous (token2id d)
  ∧ dfs_covered d
  ∧ (∀ t, is_Some (token2id d !! t) ↔ 0 < doc_freq t docs)
  ∧ (∀ t i, token2id d !! t = Some i → dfs d !! i = Some (doc_freq t docs)).

(** [d] is the vocabulary of [docs] without its rare tokens: as
    [vocabulary_of], but only the tokens that occur in at least [threshold]
    documents are present. *)
Definition filtered_vocabulary_of (threshold : nat) (d : Dictionary)
    (docs : list document) : Prop :=
  ids_injective (token2id d)
  ∧ ids_contiguous (token2id d)
  ∧ dfs_covered d
  ∧ (∀ t, is_Some (token2id d !! t)
          ↔ 0 < doc_freq t docs ∧ threshold ≤ doc_freq t docs)
  ∧ (∀ t i, token2id d !! t = Some i → dfs d !! i = Some (doc_freq t docs)).

(** A list of pairs that gives each key at most one value. *)
Definition functional {K V} (l : list (K * V)) : Prop :=
  ∀ k v1 v2, (k, v1) ∈ l → (k, v2) ∈ l → v1 = v2.

(** ** Sample inputs *)

(** An environment: dictionaries iterate in the order of [map_to_list], code
    points above ASCII have no lower-case form, and every article gives one
    window of its first [window_size] words. *)
#[local] Instance sample_environment : Environment := {|
  lower_table := λ c, c;
  py_iter := λ _ l, l;
  py_iter_perm := λ _ l, reflexivity l;
  load_windows := λ articles window_size _,
    (λ a, {| tokens := (λ w, {| word := w |})
                         <$> take window_size (split SPACE (get_content_as_string a)) |})
      <$> articles
|}.

Definition article_of (s : string) : Article :=
  {| get_content_as_string := bytes_of s |}.

(** A small configuration: flush every 2 articles or windows, at most
    [cap] (+ the overshoot of the loops) of them. *)
Definition small_config (cap : nat) : Config := {|
  LDA_CHUNK_SIZE := 10;
  COUNT_EXAMPLES_FOR_DICTIONARY := cap;
  COUNT_EXAMPLES_FOR_LDA := cap;
  LDA_COUNT_TOPICS := 2;
  LDA_COUNT_WORKERS := 1;
  IGNORE_WORDS_BELOW_COUNT := 2;
  update_every_n_articles := 2;
  update_every_n_windows := 2;
  LDA_WINDOW_SIZE := 3
|}.

(** A corpus of four articles and no artifacts yet. *)
Definition sample_world : world := {|
  corpus := [article_of "a b c"; article_of "b c d"; article_of "c d e";
             article_of "d e f"];
  dictionary_file := None;
  model_file := None;
  trace := []
|}.

(** The sample world after [--dict], and after [--dict --train], with the
    small configuration of cap 3. *)
Definition built_world : world :=
  (generate_dictionary (small_config 3) sample_world).2.

Definition trained_world : world :=
  (train_lda (small_config 3) built_world).2.

Definition sample_dictionary : Dictionary :=
  default empty_dictionary (dictionary_file built_world).

Definition sample_model : LdaModel :=
  default (initial_model (small_config 3) empty_dictionary)
          (model_file trained_world).

(** A corpus of 100002 articles. *)
Definition large_world : world := {|
  corpus := replicate (N.to_nat 100002) (article_of "a b c");
  dictionary_file := None;
  model_file := None;
  trace := []
|}.

(** The one-byte sentence 0xFF, which is not valid UTF-8. *)
Definition undecodable_sentence : string := String "255"%char EmptyString.

(** Command lines: no flag at all, and a sentence without [--test]. *)
Definition no_flags : Args := {|
  arg_dict := false; arg_train := false; arg_topics := false;
  arg_test := false; arg_sentence := Some "John Doe did something."%string
|}.


(** ** Further observations *)

(** The bag of words that [train_lda] computes for a window (with the
    vocabulary [d]): [dictionary.doc2bow([token.word.lower() for token in
    window.tokens])]. *)
Definition window_bow `{Environment} (d : Dictionary) (window : Window) : bow :=
  (doc2bow d ((λ token, lower (word token)) <$> tokens window) false).2.

(** The number of occurrences of a token in a document. *)
Definition occurrences (t : ustring) (doc : document) : nat :=
  length (filter (λ x, x = t) doc).

(** [sep.join(words)] for a one-character separator. *)
Fixpoint join (sep : N) (words : list ustring) : ustring :=
  match words with
  | [] => []
  | w :: ws =>
    match ws with
    | [] => w
    | _ :: _ => w ++ sep :: join sep ws
    end
  end.

(** The calls of [generate_dictionary] after its loop: the batch left over
    [rest], the vocabulary [d0] before and [d2] after filtering. *)
Definition dictionary_epilogue (cfg : Config) `{Environment}
    (rest : list document) (d0 d2 : Dictionary) : list event :=
  (if bool_decide (0 < length rest)
   then [Print MsgUpdatingRemainingArticles; DictAddDocuments rest]
   else [])
  ++ [Print (MsgLoadedUniqueWords (size (token2id d0)));
      Print MsgFilteringRareWords;
      DictFilterTokens (rare_ids cfg d0);
      DictCompactify;
      Print (MsgFilteredUniqueWords (size (token2id d2)));
      Print MsgSavingDictionary;
      DictSave d2].

(** Events that are calls on the model ([LdaMulticore]). *)
Definition is_model_call (e : event) : bool :=
  match e with
  | LdaInit _ _ _ _ | LdaUpdate _ | LdaSave _ | LdaLoad | LdaShowTopics
  | LdaInfer _ => true
  | _ => false
  end.

(** A byte string of ASCII characters only. *)
Definition ascii_only (s : string) : bool :=
  forallb (λ b, (b <? 128)%N) (bytes_of s).

(** Events of the loop of [train_lda]: a window taken from the stream, a
    call of [dictionary.doc2bow], and the message of the [break]. *)
Definition is_next_window (e : event) : bool :=
  match e with NextWindow => true | _ => false end.

Definition is_doc2bow (e : event) : bool :=
  match e with DictDoc2Bow _ => true | _ => false end.

Definition is_reached_max_windows (e : event) : bool :=
  match e with Print (MsgReachedMaxWindows _) => true | _ => false end.

(** Command lines: [--dict --train], [--test] without a sentence, and
    [--train --topics --test] with a sentence. *)
Definition dict_train_flags : Args := {|
  arg_dict := true; arg_train := true; arg_topics := false;
  arg_test := false; arg_sentence := None
|}.

Definition test_flag_only : Args := {|
  arg_dict := false; arg_train := false; arg_topics := false;
  arg_test := true; arg_sentence := None
|}.

Definition train_topics_test_flags : Args := {|
  arg_dict := false; arg_train := true; arg_topics := true;
  arg_test := true; arg_sentence := Some "a b c"%string
|}.

(** A window of three words, one of them twice and in upper case. *)
Definition sample_window : Window := {|
  tokens := [{| word := bytes_of "C" |}; {| word := bytes_of "d" |};
             {| word := bytes_of "c" |}]
|}.

(** [key_le] compares any two pairs. *)
#[global] Instance key_le_total : Total key_le.
Proof. intros a b. unfold key_le. lia. Qed.

(** * Properties *)

(** ** Traces and the monad *)

Lemma with_trace_app w a b :
  with_trace (with_trace w a) b = with_trace w (a ++ b).
Proof. unfold with_trace; simpl. by rewrite app_assoc. Qed.

Lemma with_trace_nil w : with_trace w [] = w.
Proof. destruct w; unfold with_trace; simpl. by rewrite app_nil_r. Qed.

Lemma events_of_with_trace {A} (m : M A) w r es :
  m w = (r, with_trace w es) → events_of m w = es.
Proof.
  intros Hm. unfold events_of. rewrite Hm. simpl.
  by rewrite drop_app_length.
Qed.

Lemma events_of_trace {A} (m : M A) w es :
  trace (m w).2 = trace w ++ es → events_of m w = es.
Proof. intros Hm. unfold events_of. by rewrite Hm, drop_app_length. Qed.

(** Unfolds the monadic plumbing of a run, leaving the gensim operations
    folded. *)
Ltac run :=
  repeat (progress (unfold load_dictionary, load_model, load_articles,
                      save_model, save_dictionary, print, emit, when, or_raise;
                    unfold bind, emit_all, ret, raise; cbn beta iota)).

Lemma count_events_app p a b :
  count_events p (a ++ b) = count_events p a + count_events p b.
Proof. induction a as [|e a IH]; simpl; [done|]. rewrite IH. lia. Qed.

(** ** test_lda *)

Section TestLda.
Context `{Environment}.

(** A complete description of [test_lda] on a non-empty sentence. *)
Lemma test_lda_nonempty cfg s w :
  1 ≤ String.length s →
  test_lda cfg (Some s) w =
  match decode s with
  | None => (Raise UnicodeDecodeError, w)
  | Some u =>
    let toks := split SPACE (strip (lower u)) in
    let mm := mismatch_events cfg toks in
    match dictionary_file w with
    | None => (Raise LoadError, with_trace w (mm ++ [DictLoad]))
    | Some d =>
      match model_file w with
      | None => (Raise LoadError, with_trace w (mm ++ [DictLoad; LdaLoad]))
      | Some m =>
        let b := (doc2bow d toks false).2 in
        (Ok tt, with_trace w (mm ++ [DictLoad; LdaLoad; DictDoc2Bow toks;
                                      LdaInfer b;
                                      Print (MsgTopicsOfSentence m b)]))
      end
    end
  end.
Proof.
  intros Hlen. unfold test_lda. rewrite bool_decide_eq_false_2 by lia.
  unfold mismatch_events.
  destruct (decode s) as [u|]; [|reflexivity]. run.
  case_bool_decide; run; cbn [dictionary_file model_file with_trace];
    destruct (dictionary_file w) as [d|]; run;
    rewrite ?with_trace_app, ?with_trace_nil; try reflexivity;
    cbn [dictionary_file model_file with_trace];
    destruct (model_file w) as [m|]; run;
    rewrite ?with_trace_app, ?with_trace_nil; try reflexivity.
Qed.

Lemma test_lda_empty cfg s w :
  s = None ∨ (∃ x, s = Some x ∧ String.length x = 0) →
  test_lda cfg s w = (Raise MissingSentence, w).
Proof.
  intros [->|(x & -> & Hx)]; [done|].
  unfold test_lda. by rewrite bool_decide_eq_true_2 by lia.
Qed.

(** C5 (as amended): [test_lda] raises its "Missing or empty 'sentence'
    argument" exception if and only if the sentence is [None] or has length
    zero, and it does so before anything else happens: the run makes no call
    at all, so neither artifact is loaded, no bag of words is computed and
    the model is not queried.  (A non-empty sentence can still fail with
    another exception, such as [UnicodeDecodeError].) *)
Theorem test_lda_missing_sentence cfg s w :
  (((test_lda cfg s w).1 = Raise MissingSentence)
   ↔ (s = None ∨ ∃ x, s = Some x ∧ String.length x = 0))
  ∧ ((test_lda cfg s w).1 = Raise MissingSentence →
     (test_lda cfg s w).2 = w ∧ events_of (test_lda cfg s) w = []).
Proof.
  assert (Hback : (test_lda cfg s w).1 = Raise MissingSentence →
                  s = None ∨ ∃ x, s = Some x ∧ String.length x = 0).
  { destruct s as [x|]; [|by left]. intros Hr. right. exists x. split; [done|].
    destruct (decide (1 ≤ String.length x)) as [Hlen|]; [|lia].
    rewrite (test_lda_nonempty _ _ _ Hlen) in Hr.
    destruct (decode x); [|discriminate]. cbv zeta in Hr.
    destruct (dictionary_file w); [|discriminate].
    destruct (model_file w); discriminate. }
  split; [split; [done|]|].
  - intros Hs. by rewrite test_lda_empty.
  - intros Hr%Hback. rewrite test_lda_empty by done. split; [done|].
    apply (events_of_with_trace _ _ (Raise MissingSentence)).
    by rewrite with_trace_nil, test_lda_empty.
Qed.

(** C6: for a non-empty sentence that decodes, with both artifacts in
    place, [test_lda] prints the token-size message exactly once when the
    number of tokens (after decoding, lower-casing, stripping and splitting
    on single spaces) differs from [LDA_WINDOW_SIZE] and never otherwise;
    in both cases the run goes on to load the dictionary and the model,
    convert the tokens, query the model and print the topics, and ends
    normally. *)
Theorem test_lda_length_mismatch cfg s u d m w :
  1 ≤ String.length s →
  decode s = Some u →
  dictionary_file w = Some d →
  model_file w = Some m →
  let toks := split SPACE (strip (lower u)) in
  let b := (doc2bow d toks false).2 in
  ∃ warn,
    test_lda cfg (Some s) w
    = (Ok tt, with_trace w (warn ++ [DictLoad; LdaLoad; DictDoc2Bow toks;
                                      LdaInfer b;
                                      Print (MsgTopicsOfSentence m b)]))
    ∧ warn = (if bool_decide (length toks ≠ LDA_WINDOW_SIZE cfg)
              then [Print (MsgTokenSizeMismatch (length toks)
                                                (LDA_WINDOW_SIZE cfg))]
              else [])
    ∧ (count_events is_mismatch_message (events_of (test_lda cfg (Some s)) w)
       = 1 ↔ length toks ≠ LDA_WINDOW_SIZE cfg)
    ∧ (count_events is_mismatch_message (events_of (test_lda cfg (Some s)) w)
       = 0 ↔ length toks = LDA_WINDOW_SIZE cfg).
Proof.
  intros Hlen Hu Hd Hm toks b.
  pose proof (test_lda_nonempty cfg s w Hlen) as Hrun.
  rewrite Hu, Hd, Hm in Hrun. cbv zeta in Hrun. fold toks b in Hrun.
  exists (mismatch_events cfg toks). split; [done|]. split; [done|].
  rewrite (events_of_with_trace _ _ _ _ Hrun), count_events_app.
  unfold mismatch_events. case_bool_decide; simpl; split; split; intros; lia || done.
Qed.
End TestLda.

(** ** main *)

Section Main.
Context `{Environment}.

(** C8: with none of [--dict], [--train], [--topics], [--test] given,
    [main] prints the usage hint and does nothing else: the hint is the only
    call, both artifacts and the corpus are untouched, and the run ends
    normally (no exception, hence exit status 0). *)
Theorem main_no_option cfg args w :
  arg_dict args = false →
  arg_train args = false →
  arg_topics args = false →
  arg_test args = false →
  main cfg args w = (Ok tt, with_trace w [Print MsgNoOptionChosen])
  ∧ events_of (main cfg args) w = [Print MsgNoOptionChosen]
  ∧ dictionary_file (main cfg args w).2 = dictionary_file w
  ∧ model_file (main cfg args w).2 = model_file w.
Proof.
  intros Hd Ht Hp He.
  assert (Hrun : main cfg args w = (Ok tt, with_trace w [Print MsgNoOptionChosen])).
  { unfold main. by rewrite Hd, Ht, Hp, He. }
  split; [done|]. split; [by eapply events_of_with_trace|].
  by rewrite Hrun.
Qed.
End Main.

(** ** Python dictionaries *)

Section PyDict.
Context `{Countable K} {V : Type}.
Implicit Types (l : list (K * V)) (m : gmap K V).

Lemma py_dict_snoc l kv : py_dict (l ++ [kv]) = <[kv.1 := kv.2]> (py_dict l).
Proof. unfold py_dict. by rewrite foldl_snoc. Qed.

Lemma py_dict_is_Some l k : is_Some (py_dict l !! k) ↔ k ∈ l.*1.
Proof.
  induction l as [|kv l IH] using rev_ind.
  - unfold py_dict; simpl. rewrite lookup_empty, elem_of_nil.
    split; [by intros []|done].
  - rewrite py_dict_snoc, fmap_app, elem_of_app, lookup_insert_is_Some, IH.
    simpl. rewrite list_elem_of_singleton.
    destruct (decide (kv.1 = k)) as [->|]; intuition congruence.
Qed.

Lemma functional_app_l l l' : functional (l ++ l') → functional l.
Proof. intros Hf k v1 v2 ? ?. apply (Hf k); set_solver. Qed.

(** On a list that gives each key one value, [dict] looks up the pairs of
    the list. *)
Lemma py_dict_lookup l k v :
  functional l → py_dict l !! k = Some v ↔ (k, v) ∈ l.
Proof.
  induction l as [|[k' v'] l IH] using rev_ind; intros Hf.
  - unfold py_dict; simpl. rewrite lookup_empty, elem_of_nil. naive_solver.
  - rewrite py_dict_snoc, elem_of_app, list_elem_of_singleton. simpl.
    destruct (decide (k' = k)) as [->|Hne].
    + rewrite lookup_insert_eq. split.
      * intros [= ->]. by right.
      * intros Hin. f_equal.
        apply (Hf k); rewrite elem_of_app, list_elem_of_singleton; auto.
    + rewrite lookup_insert_ne by done.
      rewrite IH by eauto using functional_app_l.
      split; [auto|]. intros [?|[= ? ?]]; [done|congruence].
Qed.

Lemma NoDup_fst_functional l : NoDup l.*1 → functional l.
Proof.
  intros Hnd k v1 v2 H1 H2.
  apply list_elem_of_lookup in H1 as [i Hi], H2 as [j Hj].
  assert (i = j) as ->.
  { apply (NoDup_lookup _ _ _ k Hnd); rewrite list_lookup_fmap.
    - by rewrite Hi. - by rewrite Hj. }
  congruence.
Qed.

Lemma functional_filter (P : K * V → Prop) `{∀ x, Decision (P x)} l :
  functional l → functional (filter P l).
Proof.
  intros Hf k v1 v2 [_ H1]%list_elem_of_filter [_ H2]%list_elem_of_filter.
  eauto.
Qed.
End PyDict.

Section Items.
Context `{Environment} `{Countable K} {V : Type}.
Implicit Types (m : gmap K V).

Lemma elem_of_items m k v : (k, v) ∈ items m ↔ m !! k = Some v.
Proof. unfold items. rewrite py_iter_perm. apply elem_of_map_to_list. Qed.

Lemma NoDup_items m : NoDup (items m).
Proof. unfold items. rewrite py_iter_perm. apply NoDup_map_to_list. Qed.

Lemma NoDup_keys m : NoDup (keys m).
Proof.
  unfold keys, items. rewrite py_iter_perm. apply NoDup_fst_map_to_list.
Qed.

Lemma elem_of_keys m k : k ∈ keys m ↔ is_Some (m !! k).
Proof.
  unfold keys. rewrite list_elem_of_fmap. split.
  - intros ([k' v] & -> & Hin). apply elem_of_items in Hin. eauto.
  - intros [v Hv]. exists (k, v). split; [done|]. by apply elem_of_items.
Qed.

Lemma length_items m : length (items m) = size m.
Proof. unfold items. rewrite py_iter_perm. apply length_map_to_list. Qed.

Lemma functional_items m : functional (items m).
Proof. apply NoDup_fst_functional, NoDup_keys. Qed.

Lemma py_dict_filter_items (P : K * V → Prop) `{∀ x, Decision (P x)} m k v :
  py_dict (filter P (items m)) !! k = Some v ↔ P (k, v) ∧ m !! k = Some v.
Proof.
  rewrite py_dict_lookup by apply functional_filter, functional_items.
  by rewrite list_elem_of_filter, elem_of_items.
Qed.

Lemma items_singleton (k : K) (v : V) :
  items (<[k := v]> (∅ : gmap K V)) = [(k, v)].
Proof.
  unfold items. apply Permutation_singleton_r.
  by rewrite py_iter_perm, insert_empty, map_to_list_singleton.
Qed.

Lemma items_empty : items (∅ : gmap K V) = [].
Proof.
  unfold items. apply Permutation_nil_r.
  by rewrite py_iter_perm, map_to_list_empty.
Qed.
End Items.

(** ** gensim.corpora.Dictionary *)

Section DictionaryFacts.
Context `{Environment}.
Implicit Types (t2i : gmap ustring nat) (df : gmap nat nat)
         (doc : document) (docs : list document) (d : Dictionary).

Lemma count_tokens_is_Some doc w : is_Some (count_tokens doc !! w) ↔ w ∈ doc.
Proof.
  unfold count_tokens.
  assert (Hgen : ∀ c : gmap ustring nat, is_Some (foldl (λ counter w0,
                   <[w0 := default 0 (counter !! w0) + 1]> counter) c doc !! w)
                 ↔ is_Some (c !! w) ∨ w ∈ doc).
  { induction doc as [|x doc IH]; intros c; simpl.
    - rewrite elem_of_nil. tauto.
    - rewrite IH, lookup_insert_is_Some, elem_of_cons.
      destruct (decide (x = w)) as [->|]; intuition congruence. }
  rewrite Hgen, lookup_empty. split; [intros [[]%is_Some_None|]|]; auto.
Qed.

(** Fresh tokens get the ids [size], [size + 1], ... in the order of the
    list. *)
Lemma assign_ids_spec missing : ∀ t2i,
  NoDup missing →
  (∀ w, w ∈ missing → t2i !! w = None) →
  size (assign_ids t2i missing) = size t2i + length missing
  ∧ ∀ w i, assign_ids t2i missing !! w = Some i
           ↔ t2i !! w = Some i
             ∨ ∃ k, missing !! k = Some w ∧ i = size t2i + k.
Proof.
  induction missing as [|x missing IH]; intros t2i Hnd Hfresh.
  - simpl. split; [lia|]. intros w i. split; [auto|].
    intros [?|(k & Hk & _)]; [done|]. by rewrite lookup_nil in Hk.
  - apply NoDup_cons in Hnd as [Hx Hnd].
    assert (Hxn : t2i !! x = None) by (apply Hfresh; left).
    change (assign_ids t2i (x :: missing))
      with (assign_ids (<[x := size t2i]> t2i) missing).
    destruct (IH (<[x := size t2i]> t2i) Hnd) as [Hsize Hlook].
    { intros w Hw. rewrite lookup_insert_ne by (by intros ->).
      apply Hfresh. by right. }
    rewrite map_size_insert_None in Hsize, Hlook by done.
    split; [simpl; lia|]. intros w i. rewrite Hlook. split.
    + intros [Hins|(k & Hk & ->)].
      * apply lookup_insert_Some in Hins as [[<- <-]|[_ ?]]; [|by left].
        right. exists 0. split; [done|lia].
      * right. exists (S k). split; [done|lia].
    + intros [Hold|(k & Hk & ->)].
      * left. rewrite lookup_insert_ne; [done|]. congruence.
      * destruct k as [|k]; simpl in Hk.
        -- injection Hk as ->. left. rewrite lookup_insert_eq. f_equal. lia.
        -- right. exists k. split; [done|lia].
Qed.

(** Each listed id has its document frequency increased by one. *)
Lemma bump_dfs_lookup ids : ∀ df i,
  NoDup ids →
  bump_dfs df ids !! i
  = if decide (i ∈ ids) then Some (default 0 (df !! i) + 1) else df !! i.
Proof.
  induction ids as [|x ids IH]; intros df i Hnd.
  - by rewrite decide_False by apply not_elem_of_nil.
  - apply NoDup_cons in Hnd as [Hx Hnd].
    change (bump_dfs df (x :: ids))
      with (bump_dfs (<[x := default 0 (df !! x) + 1]> df) ids).
    rewrite IH by done.
    destruct (decide (i = x)) as [->|Hne].
    + rewrite decide_False by done. rewrite decide_True by set_solver.
      by rewrite lookup_insert_eq.
    + rewrite lookup_insert_ne by done.
      destruct (decide (i ∈ ids)).
      * by rewrite decide_True by set_solver.
      * by rewrite decide_False by (by intros [?|?]%elem_of_cons).
Qed.

Lemma doc_freq_snoc t docs doc :
  doc_freq t (docs ++ [doc])
  = doc_freq t docs + (if decide (t ∈ doc) then 1 else 0).
Proof.
  unfold doc_freq. rewrite filter_app, length_app. f_equal.
  rewrite filter_cons, filter_nil. by case_decide.
Qed.

Lemma doc_freq_pos t docs : 0 < doc_freq t docs ↔ ∃ doc, doc ∈ docs ∧ t ∈ doc.
Proof.
  unfold doc_freq. split.
  - intros Hpos. destruct (filter _ docs) as [|doc l] eqn:Hf; [simpl in Hpos; lia|].
    assert (Hin : doc ∈ filter (λ doc, t ∈ doc) docs) by (rewrite Hf; left).
    apply list_elem_of_filter in Hin as [? ?]. eauto.
  - intros (doc & Hin & Ht).
    assert (Hf : doc ∈ filter (λ doc, t ∈ doc) docs)
      by by apply list_elem_of_filter.
    destruct (filter _ docs); [by apply elem_of_nil in Hf|simpl; lia].
Qed.
End DictionaryFacts.

Section AddDocuments.
Context `{Environment}.
Implicit Types (doc : document) (docs : list document) (d : Dictionary).

Lemma vocabulary_of_empty : vocabulary_of empty_dictionary [].
Proof.
  unfold vocabulary_of, ids_injective, ids_contiguous, dfs_covered. simpl.
  repeat split; try (intros; simplify_map_eq; fail).
  - rewrite map_size_empty. lia.
  - intros [t Ht]. by rewrite lookup_empty in Ht.
  - intros i [? Hi]. by rewrite lookup_empty in Hi.
  - rewrite lookup_empty. by intros []%is_Some_None.
  - unfold doc_freq. simpl. lia.
Qed.

(** One [doc2bow(document, allow_update=True)] extends the vocabulary by
    the document. *)
Lemma doc2bow_update d docs doc :
  vocabulary_of d docs →
  vocabulary_of (doc2bow d doc true).1 (docs ++ [doc]).
Proof.
  intros (Hinj & Hcont & Hcov & Hdom & Hdf).
  unfold doc2bow. cbn [fst].
  set (counter := count_tokens doc).
  set (missing := py_dict (filter (λ wf, token2id d !! wf.1 = None)
                                  (items counter))).
  set (t' := assign_ids (token2id d) (keys missing)).
  set (result := py_dict (omap (λ wf, (λ i, (i, wf.2)) <$> t' !! wf.1)
                               (items counter))).
  assert (Hmiss : ∀ w, w ∈ keys missing ↔ w ∈ doc ∧ token2id d !! w = None).
  { intros w. rewrite elem_of_keys. unfold missing. split.
    - intros [v Hv]. apply py_dict_filter_items in Hv as [Hn Hc].
      split; [|done]. apply count_tokens_is_Some. by exists v.
    - intros [[v Hv]%count_tokens_is_Some Hn]. exists v.
      by apply py_dict_filter_items. }
  destruct (assign_ids_spec (keys missing) (token2id d)) as [Hsize Hlook].
  { apply NoDup_keys. }
  { intros w Hw. by apply Hmiss. }
  fold t' in Hsize, Hlook.
  assert (Hbound : ∀ w i, token2id d !! w = Some i → i < size (token2id d)).
  { intros w i Hw. apply Hcont. eauto. }
  assert (Hold : ∀ w i, token2id d !! w = Some i → t' !! w = Some i).
  { intros w i Hw. apply Hlook. by left. }
  assert (Hnew : ∀ w i, t' !! w = Some i →
            token2id d !! w = Some i
            ∨ (token2id d !! w = None ∧ w ∈ doc ∧ size (token2id d) ≤ i)).
  { intros w i [?|(k & Hk & ->)]%Hlook; [by left|]. right.
    apply list_elem_of_lookup_2, Hmiss in Hk as [? ?].
    repeat split; [done|done|lia]. }
  assert (Hindoc : ∀ w, w ∈ doc → is_Some (t' !! w)).
  { intros w Hw. destruct (token2id d !! w) as [i|] eqn:Hi; [by eauto|].
    assert (Hk : w ∈ keys missing) by by apply Hmiss.
    apply list_elem_of_lookup in Hk as [k Hk].
    exists (size (token2id d) + k). apply Hlook. right. eauto. }
  assert (Hinj' : ids_injective t').
  { intros w1 w2 i H1 H2.
    apply Hlook in H1 as [H1|(k1 & Hk1 & E1)];
      apply Hlook in H2 as [H2|(k2 & Hk2 & E2)].
    - by eapply Hinj.
    - apply Hbound in H1. lia.
    - apply Hbound in H2. lia.
    - assert (k1 = k2) as -> by lia. congruence. }
  assert (Hres : ∀ i, i ∈ keys result ↔ ∃ w, w ∈ doc ∧ t' !! w = Some i).
  { intros i. rewrite elem_of_keys. unfold result.
    rewrite py_dict_is_Some, list_elem_of_fmap. split.
    - intros ([i' f] & -> & ([w c] & Hwc & Hf)%list_elem_of_omap).
      simpl in *. destruct (t' !! w) as [j|] eqn:Hj; [|done].
      injection Hf as <- <-. exists w. split; [|done].
      apply count_tokens_is_Some. exists c. by apply elem_of_items.
    - intros (w & [c Hc]%count_tokens_is_Some & Hw).
      exists (i, c). split; [done|]. apply list_elem_of_omap.
      exists (w, c). split; [by apply elem_of_items|]. simpl. by rewrite Hw. }
  unfold vocabulary_of, dfs_covered. cbn [token2id dfs]. split; [done|].
  split; [|split; [|split]].
  - (* contiguous *)
    intros i. rewrite Hsize. split.
    + intros Hi. destruct (decide (i < size (token2id d))) as [Hlt|Hge].
      * apply Hcont in Hlt as [w Hw]. exists w. by apply Hold.
      * destruct (lookup_lt_is_Some_2 (keys missing) (i - size (token2id d)))
          as [w Hw]; [lia|].
        exists w. apply Hlook. right. eexists. split; [done|lia].
    + intros [w [Hw|(k & Hk & ->)]%Hlook].
      * apply Hbound in Hw. lia.
      * apply lookup_lt_Some in Hk. lia.
  - (* every id with a frequency belongs to a token *)
    intros i. rewrite bump_dfs_lookup by apply NoDup_keys.
    case_decide as Hi.
    + intros _. apply Hres in Hi as (w & _ & Hw). eauto.
    + intros [w Hw]%Hcov. exists w. by apply Hold.
  - (* the tokens are those of the documents *)
    intros t. rewrite doc_freq_snoc. split.
    + intros [i [Hi|(_ & Hin & _)]%Hnew].
      * assert (0 < doc_freq t docs) by (apply Hdom; eauto). lia.
      * rewrite decide_True by done. lia.
    + intros Hpos. case_decide as Hin.
      * by apply Hindoc.
      * assert (Hp : 0 < doc_freq t docs) by lia.
        apply Hdom in Hp as [i Hi]. exists i. by apply Hold.
  - (* the document frequencies *)
    intros t i Hi. rewrite doc_freq_snoc.
    rewrite bump_dfs_lookup by apply NoDup_keys.
    destruct (decide (t ∈ doc)) as [Hin|Hin].
    + rewrite decide_True by (apply Hres; eauto).
      destruct (Hnew _ _ Hi) as [Ho|(Hn & _ & Hge)].
      * by rewrite (Hdf _ _ Ho).
      * assert (Hnone : dfs d !! i = None).
        { destruct (dfs d !! i) as [f|] eqn:Hf; [|done].
          destruct (Hcov i) as [w Hw]; [by eauto|].
          apply Hbound in Hw. lia. }
        assert (Hz : doc_freq t docs = 0).
        { destruct (decide (0 < doc_freq t docs)) as [Hp|]; [|lia].
          apply Hdom in Hp as [j Hj]. congruence. }
        by rewrite Hnone, Hz.
    + rewrite decide_False.
      * destruct (Hnew _ _ Hi) as [Ho|(_ & ? & _)]; [|done].
        rewrite (Hdf _ _ Ho). f_equal. lia.
      * intros (w & Hw & Hwi)%Hres.
        assert (w = t) as -> by by eapply Hinj'. done.
Qed.

Lemma add_documents_app d docs1 docs2 :
  add_documents d (docs1 ++ docs2)
  = add_documents (add_documents d docs1) docs2.
Proof. unfold add_documents. apply foldl_app. Qed.

(** [add_documents] extends the vocabulary by its batch. *)
Lemma add_documents_vocabulary batch : ∀ d docs,
  vocabulary_of d docs →
  vocabulary_of (add_documents d batch) (docs ++ batch).
Proof.
  induction batch as [|doc batch IH]; intros d docs Hd.
  - by rewrite app_nil_r.
  - change (add_documents d (doc :: batch))
      with (add_documents (doc2bow d doc true).1 batch).
    rewrite (cons_middle doc docs batch), app_assoc.
    by apply IH, doc2bow_update.
Qed.
End AddDocuments.

Lemma elem_of_zip_seq {A} (l : list A) x j :
  (x, j) ∈ zip l (seq 0 (length l)) ↔ l !! j = Some x.
Proof.
  rewrite list_elem_of_lookup. split.
  - intros [k Hk]. apply lookup_zip_with_Some in Hk as (x' & j' & [= <- <-] & Hx & Hj).
    apply lookup_seq in Hj as [-> _]. done.
  - intros Hj. exists j. apply lookup_zip_with_Some. exists x, j.
    split; [done|]. split; [done|]. apply lookup_seq.
    split; [done|]. by eapply lookup_lt_Some.
Qed.

Lemma mapM_Some_omap {A B} (f : A → option B) l k :
  mapM f l = Some k → k = omap f l.
Proof.
  intros Hall%mapM_Some. induction Hall as [|x y l k Hxy _ IH]; [done|].
  simpl. by rewrite Hxy, IH.
Qed.

Lemma map_size_same_keys `{Countable K} {A B} (m1 : gmap K A) (m2 : gmap K B) :
  (∀ k, is_Some (m1 !! k) ↔ is_Some (m2 !! k)) → size m1 = size m2.
Proof.
  intros Hk. rewrite <- !size_dom. f_equal. apply set_eq. intros k.
  by rewrite !elem_of_dom.
Qed.

Section Compactify.
Context `{Environment}.
Implicit Types (d : Dictionary).

Lemma NoDup_values (t2i : gmap ustring nat) :
  ids_injective t2i → NoDup (values t2i).
Proof.
  intros Hinj. unfold values. apply NoDup_fmap_2_strong; [|apply NoDup_items].
  intros [t1 i1] [t2 i2] H1%elem_of_items H2%elem_of_items. simpl.
  intros <-. f_equal. by eapply Hinj.
Qed.

Lemma elem_of_values (t2i : gmap ustring nat) i :
  i ∈ values t2i ↔ ∃ t, t2i !! t = Some i.
Proof.
  unfold values. rewrite list_elem_of_fmap. split.
  - intros ([t i'] & -> & Hin%elem_of_items). eauto.
  - intros [t Ht]. exists (t, i). split; [done|]. by apply elem_of_items.
Qed.

(** The [idmap] of [compactify]: the id at position [j] of [values()]
    becomes [j]. *)
Lemma idmap_lookup (t2i : gmap ustring nat) i j :
  ids_injective t2i →
  py_dict (zip (values t2i) (seq 0 (size t2i))) !! i = Some j
  ↔ values t2i !! j = Some i.
Proof.
  intros Hinj.
  assert (Hlen : size t2i = length (values t2i)).
  { unfold values. by rewrite length_fmap, length_items. }
  rewrite Hlen. rewrite py_dict_lookup; [apply elem_of_zip_seq|].
  intros k j1 j2 H1%elem_of_zip_seq H2%elem_of_zip_seq.
  eapply NoDup_lookup; eauto using NoDup_values.
Qed.

(** [compactify] succeeds on a dictionary whose ids are distinct and whose
    document frequencies all belong to tokens; it keeps the tokens and
    their document frequencies and renumbers them 0, 1, ... *)
Lemma compactify_spec d :
  ids_injective (token2id d) →
  dfs_covered d →
  ∃ d', compactify d = Some d'
    ∧ ids_injective (token2id d')
    ∧ ids_contiguous (token2id d')
    ∧ dfs_covered d'
    ∧ (∀ t, is_Some (token2id d' !! t) ↔ is_Some (token2id d !! t))
    ∧ (∀ t i j, token2id d !! t = Some i → token2id d' !! t = Some j →
                dfs d' !! j = dfs d !! i).
Proof.
  intros Hinj Hcov. unfold compactify.
  set (idmap := py_dict (zip (values (token2id d)) (seq 0 (size (token2id d))))).
  assert (Hid : ∀ i j, idmap !! i = Some j ↔ values (token2id d) !! j = Some i)
    by (intros; by apply idmap_lookup).
  assert (Hidinj : ∀ i1 i2 j, idmap !! i1 = Some j → idmap !! i2 = Some j → i1 = i2).
  { intros i1 i2 j H1%Hid H2%Hid. congruence. }
  assert (Hidtot : ∀ t i, token2id d !! t = Some i → ∃ j, idmap !! i = Some j).
  { intros t i Ht.
    assert (Hin : i ∈ values (token2id d)) by (apply elem_of_values; eauto).
    apply list_elem_of_lookup in Hin as [j Hj]. exists j. by apply Hid. }
  set (g1 := λ ti : ustring * nat, (λ j, (ti.1, j)) <$> idmap !! ti.2).
  set (g2 := λ if_ : nat * nat, (λ j, (j, if_.2)) <$> idmap !! if_.1).
  destruct (mapM g1 (items (token2id d))) as [l1|] eqn:Hl1; last first.
  { exfalso. apply eq_None_not_Some in Hl1. apply Hl1, mapM_is_Some, Forall_forall.
    intros [t i] Hti%elem_of_items. unfold g1; simpl.
    destruct (Hidtot _ _ Hti) as [j ->]. by eexists. }
  destruct (mapM g2 (items (dfs d))) as [l2|] eqn:Hl2; last first.
  { exfalso. apply eq_None_not_Some in Hl2. apply Hl2, mapM_is_Some, Forall_forall.
    intros [i f] Hif%elem_of_items. unfold g2; simpl.
    destruct (Hcov i) as [t Ht]; [by eauto|].
    destruct (Hidtot _ _ Ht) as [j ->]. by eexists. }
  apply mapM_Some_omap in Hl1 as ->, Hl2 as ->.
  cbn [mbind option_bind]. eexists. split; [reflexivity|]. cbn [token2id dfs].
  unfold dfs_covered; cbn [token2id dfs].
  set (T' := py_dict (omap g1 (items (token2id d)))).
  set (D' := py_dict (omap g2 (items (dfs d)))).
  assert (HT' : ∀ t j, T' !! t = Some j
                       ↔ ∃ i, token2id d !! t = Some i ∧ idmap !! i = Some j).
  { intros t j. unfold T'. rewrite py_dict_lookup.
    - rewrite list_elem_of_omap. split.
      + intros ([t' i] & Hin%elem_of_items & Hg). unfold g1 in Hg; simpl in Hg.
        destruct (idmap !! i) as [j'|] eqn:Hj; [|done].
        injection Hg as <- <-. eauto.
      + intros (i & Ht & Hj). exists (t, i). split; [by apply elem_of_items|].
        unfold g1; simpl. by rewrite Hj.
    - intros k j1 j2 ([t1 i1] & Hin1%elem_of_items & Hg1)%list_elem_of_omap
                     ([t2 i2] & Hin2%elem_of_items & Hg2)%list_elem_of_omap.
      unfold g1 in Hg1, Hg2; simpl in Hg1, Hg2.
      destruct (idmap !! i1) as [j1'|] eqn:Hj1; [|done].
      destruct (idmap !! i2) as [j2'|] eqn:Hj2; [|done].
      injection Hg1 as <- <-. injection Hg2 as <- <-. congruence. }
  assert (HD' : ∀ j f, D' !! j = Some f
                       ↔ ∃ i, dfs d !! i = Some f ∧ idmap !! i = Some j).
  { intros j f. unfold D'. rewrite py_dict_lookup.
    - rewrite list_elem_of_omap. split.
      + intros ([i f'] & Hin%elem_of_items & Hg). unfold g2 in Hg; simpl in Hg.
        destruct (idmap !! i) as [j'|] eqn:Hj; [|done].
        injection Hg as <- <-. eauto.
      + intros (i & Hf & Hj). exists (i, f). split; [by apply elem_of_items|].
        unfold g2; simpl. by rewrite Hj.
    - intros k f1 f2 ([i1 f1'] & Hin1%elem_of_items & Hg1)%list_elem_of_omap
                     ([i2 f2'] & Hin2%elem_of_items & Hg2)%list_elem_of_omap.
      unfold g2 in Hg1, Hg2; simpl in Hg1, Hg2.
      destruct (idmap !! i1) as [j1'|] eqn:Hj1; [|done].
      destruct (idmap !! i2) as [j2'|] eqn:Hj2; [|done].
      injection Hg1 as <- <-. injection Hg2 as <- <-.
      assert (i1 = i2) as -> by by eapply Hidinj. congruence. }
  assert (Hkeys : ∀ t, is_Some (T' !! t) ↔ is_Some (token2id d !! t)).
  { intros t. split.
    - intros [j (i & Hi & _)%HT']. eauto.
    - intros [i Hi]. destruct (Hidtot _ _ Hi) as [j Hj].
      exists j. apply HT'. eauto. }
  split; [|split; [|split; [|split; [done|]]]].
  - intros t1 t2 j (i1 & Ht1 & Hj1)%HT' (i2 & Ht2 & Hj2)%HT'.
    assert (i1 = i2) as -> by by eapply Hidinj. by eapply Hinj.
  - intros j. rewrite (map_size_same_keys _ _ Hkeys). split.
    + intros Hj.
      assert (Hlen : size (token2id d) = length (values (token2id d))).
      { unfold values. by rewrite length_fmap, length_items. }
      destruct (lookup_lt_is_Some_2 (values (token2id d)) j) as [i Hi]; [lia|].
      assert (Hin : i ∈ values (token2id d)) by by eapply list_elem_of_lookup_2.
      apply elem_of_values in Hin as [t Ht]. exists t. apply HT'.
      exists i. split; [done|]. by apply Hid.
    + intros [t (i & _ & Hj%Hid)%HT']. apply lookup_lt_Some in Hj.
      unfold values in Hj. by rewrite length_fmap, length_items in Hj.
  - intros j [f (i & Hf & Hj)%HD']. destruct (Hcov i) as [t Ht]; [by eauto|].
    exists t. apply HT'. eauto.
  - intros t i j Hi (i' & Hi' & Hj)%HT'.
    assert (i' = i) as -> by congruence.
    apply option_eq. intros f. rewrite HD'. split.
    + intros (i'' & Hf & Hj''). by rewrite (Hidinj _ _ _ Hj Hj'').
    + eauto.
Qed.

(** [filter_tokens] succeeds, drops the tokens whose id is listed and keeps
    the document frequencies of the others. *)
Lemma filter_tokens_spec d bad_ids :
  ids_injective (token2id d) →
  dfs_covered d →
  ∃ d', filter_tokens d bad_ids = Some d'
    ∧ ids_injective (token2id d')
    ∧ ids_contiguous (token2id d')
    ∧ dfs_covered d'
    ∧ (∀ t, is_Some (token2id d' !! t)
            ↔ ∃ i, token2id d !! t = Some i ∧ i ∉ bad_ids)
    ∧ (∀ t i j, token2id d !! t = Some i → token2id d' !! t = Some j →
                dfs d' !! j = dfs d !! i).
Proof.
  intros Hinj Hcov. unfold filter_tokens.
  set (bad := list_to_set bad_ids : gset nat).
  set (T1 := py_dict (filter (λ ti, ti.2 ∉ bad) (items (token2id d)))).
  set (D1 := py_dict (filter (λ if_, if_.1 ∉ bad) (items (dfs d)))).
  assert (HT1 : ∀ t i, T1 !! t = Some i ↔ (i ∉ bad_ids) ∧ token2id d !! t = Some i).
  { intros t i. unfold T1. rewrite py_dict_filter_items. simpl.
    unfold bad. by rewrite elem_of_list_to_set. }
  assert (HD1 : ∀ i f, D1 !! i = Some f ↔ (i ∉ bad_ids) ∧ dfs d !! i = Some f).
  { intros i f. unfold D1. rewrite py_dict_filter_items. simpl.
    unfold bad. by rewrite elem_of_list_to_set. }
  destruct (compactify_spec {| token2id := T1; dfs := D1 |})
    as (d' & Hrun & Hinj' & Hcont' & Hcov' & Hkeys & Hfreq).
  { intros t1 t2 i [_ H1]%HT1 [_ H2]%HT1. by eapply Hinj. }
  { intros i [f [Hbad Hf]%HD1]. destruct (Hcov i) as [t Ht]; [by eauto|].
    exists t. by apply HT1. }
  cbn [token2id dfs] in *.
  exists d'. split; [done|]. split; [done|]. split; [done|]. split; [done|].
  split.
  - intros t. rewrite Hkeys. split.
    + intros [i [? ?]%HT1]. eauto.
    + intros (i & ? & ?). exists i. by apply HT1.
  - intros t i j Hi Hj.
    assert (Ht1 : T1 !! t = Some i).
    { destruct (proj1 (Hkeys t)) as [i' Hi']; [by eauto|].
      pose proof Hi' as [_ Hi'']%HT1. congruence. }
    rewrite (Hfreq _ _ _ Ht1 Hj). apply option_eq. intros f.
    rewrite HD1. apply HT1 in Ht1 as [? _]. tauto.
Qed.
End Compactify.

(** ** generate_dictionary *)

Lemma added_batches_app a b :
  added_batches (a ++ b) = added_batches a ++ added_batches b.
Proof. apply omap_app. Qed.

Lemma added_batches_cons e es :
  added_batches (e :: es)
  = match e with DictAddDocuments b => [b] | _ => [] end ++ added_batches es.
Proof. by destruct e. Qed.

Lemma added_batches_nil : added_batches [] = [].
Proof. done. Qed.

Lemma count_events_cons p e es :
  count_events p (e :: es) = (if p e then 1 else 0) + count_events p es.
Proof. done. Qed.

Ltac observe :=
  repeat (progress
    (rewrite ?added_batches_cons, ?added_batches_app, ?added_batches_nil,
       ?count_events_cons, ?count_events_app));
  cbn [app length concat count_events is_next_article Nat.add].

Section GenerateDictionary.
Context `{Environment}.

(** The loop of [generate_dictionary] started at index [i]: it reads
    [min (length articles) (cap + 2 - i)] articles, and every tokenized
    article is either in a batch given to [add_documents] or still in
    [articles_str] at the end. *)
Lemma dictionary_loop_spec cfg articles :
  ∀ i articles_str d a' d' ev,
    i ≤ S (COUNT_EXAMPLES_FOR_DICTIONARY cfg) →
    dictionary_loop cfg i articles articles_str d = (a', d', ev) →
    let processed :=
      take (S (S (COUNT_EXAMPLES_FOR_DICTIONARY cfg)) - i) articles in
    count_events is_next_article ev = length processed
    ∧ concat (added_batches ev) ++ a' = articles_str ++ (tokenize <$> processed)
    ∧ d' = add_documents d (concat (added_batches ev)).
Proof.
  induction articles as [|article articles IH];
    intros i articles_str d a' d' ev Hi Hrun; cbv zeta.
  - simpl in Hrun. injection Hrun as <- <- <-.
    rewrite take_nil. simpl. by rewrite app_nil_r.
  - cbn [dictionary_loop] in Hrun. cbv zeta in Hrun.
    set (batch := articles_str ++ [tokenize article]) in Hrun.
    destruct (bool_decide (update_every_n_articles cfg ≤ length batch));
      cbv iota in Hrun.
    + case_bool_decide as Hcap.
      * injection Hrun as <- <- <-. observe.
        replace (S (S (COUNT_EXAMPLES_FOR_DICTIONARY cfg)) - i) with 1 by lia.
        simpl. by rewrite !app_nil_r.
      * destruct (dictionary_loop _ _ _ _ _) as [[a1 d1] ev1] eqn:Hrec.
        injection Hrun as <- <- <-.
        apply IH in Hrec as (Hc & Hb & Hd); [|lia].
        observe. rewrite Hc, <- app_assoc, Hb, Hd, add_documents_app.
        replace (S (S (COUNT_EXAMPLES_FOR_DICTIONARY cfg)) - i)
          with (S (S (S (COUNT_EXAMPLES_FOR_DICTIONARY cfg)) - S i)) by lia.
        cbn [take fmap list_fmap length app]. unfold batch.
        by rewrite <- app_assoc.
    + case_bool_decide as Hcap.
      * injection Hrun as <- <- <-. observe.
        replace (S (S (COUNT_EXAMPLES_FOR_DICTIONARY cfg)) - i) with 1 by lia.
        simpl. done.
      * destruct (dictionary_loop _ _ _ _ _) as [[a1 d1] ev1] eqn:Hrec.
        injection Hrun as <- <- <-.
        apply IH in Hrec as (Hc & Hb & Hd); [|lia].
        observe. rewrite Hc, Hb, Hd.
        replace (S (S (COUNT_EXAMPLES_FOR_DICTIONARY cfg)) - i)
          with (S (S (S (COUNT_EXAMPLES_FOR_DICTIONARY cfg)) - S i)) by lia.
        cbn [take fmap list_fmap length app]. unfold batch.
        by rewrite <- app_assoc.
Qed.

Lemma elem_of_rare_ids cfg d i :
  i ∈ rare_ids cfg d
  ↔ ∃ f, dfs d !! i = Some f ∧ f < IGNORE_WORDS_BELOW_COUNT cfg.
Proof.
  unfold rare_ids. rewrite list_elem_of_fmap. split.
  - intros ([i' f] & -> & [Hf Hin%elem_of_items]%list_elem_of_filter). eauto.
  - intros (f & Hf & Hlt). exists (i, f). split; [done|].
    apply list_elem_of_filter. split; [done|]. by apply elem_of_items.
Qed.

(** Filtering the rare ids of a vocabulary and compacting leaves the
    vocabulary without its rare tokens. *)
Lemma filter_rare_spec cfg d docs :
  vocabulary_of d docs →
  ∃ d1 d2,
    filter_tokens d (rare_ids cfg d) = Some d1
    ∧ compactify d1 = Some d2
    ∧ filtered_vocabulary_of (IGNORE_WORDS_BELOW_COUNT cfg) d2 docs.
Proof.
  intros (Hinj & Hcont & Hcov & Hdom & Hdf).
  destruct (filter_tokens_spec d (rare_ids cfg d) Hinj Hcov)
    as (d1 & Hrun1 & Hinj1 & Hcont1 & Hcov1 & Hkeys1 & Hfreq1).
  destruct (compactify_spec d1 Hinj1 Hcov1)
    as (d2 & Hrun2 & Hinj2 & Hcont2 & Hcov2 & Hkeys2 & Hfreq2).
  exists d1, d2. split; [done|]. split; [done|].
  split; [done|]. split; [done|]. split; [done|]. split.
  - intros t. rewrite Hkeys2, Hkeys1. split.
    + intros (i & Hi & Hrare). pose proof (Hdf _ _ Hi) as Hf.
      split; [apply Hdom; eauto|].
      destruct (decide (IGNORE_WORDS_BELOW_COUNT cfg ≤ doc_freq t docs));
        [done|].
      exfalso. apply Hrare, elem_of_rare_ids. eexists. split; [done|lia].
    + intros [[i Hi]%Hdom Hge]. exists i. split; [done|].
      intros (f & Hf & Hlt)%elem_of_rare_ids.
      rewrite (Hdf _ _ Hi) in Hf. injection Hf as <-. lia.
  - intros t j Hj.
    destruct (proj1 (Hkeys2 t)) as [i1 Hi1]; [by eauto|].
    destruct (proj1 (Hkeys1 t)) as (i & Hi & _); [by eauto|].
    rewrite (Hfreq2 _ _ _ Hi1 Hj), (Hfreq1 _ _ _ Hi Hi1). by apply Hdf.
Qed.

(** The run of [generate_dictionary]: it always ends normally, having
    saved a dictionary. *)
Lemma generate_dictionary_run cfg w :
  let docs :=
    tokenize <$> take (S (S (COUNT_EXAMPLES_FOR_DICTIONARY cfg))) (corpus w) in
  ∃ d ev,
    generate_dictionary cfg w
    = (Ok tt, {| corpus := corpus w; dictionary_file := Some d;
                 model_file := model_file w; trace := trace w ++ ev |})
    ∧ count_events is_next_article ev = length docs
    ∧ concat (added_batches ev) = docs
    ∧ last ev = Some (DictSave d)
    ∧ filtered_vocabulary_of (IGNORE_WORDS_BELOW_COUNT cfg) d docs.
Proof.
  intros docs. unfold generate_dictionary. run. cbn [corpus with_trace].
  destruct (dictionary_loop _ _ _ _ _) as [[a' d'] ev] eqn:Hloop.
  apply dictionary_loop_spec in Hloop as (Hc & Hb & Hd); [|lia].
  rewrite Nat.sub_0_r in Hc, Hb. cbn [app] in Hb. fold docs in Hb.
  assert (Hc' : count_events is_next_article ev = length docs)
    by (unfold docs; by rewrite length_fmap).
  clear Hc. run.
  set (d0 := if bool_decide (0 < length a') then add_documents d' a' else d').
  assert (Hd0 : vocabulary_of d0 docs).
  { unfold d0. rewrite Hd, <- Hb. case_bool_decide as Ha.
    - rewrite <- add_documents_app.
      apply (add_documents_vocabulary _ _ []), vocabulary_of_empty.
    - destruct a'; [|simpl in Ha; lia]. rewrite app_nil_r.
      apply (add_documents_vocabulary _ _ []), vocabulary_of_empty. }
  destruct (filter_rare_spec cfg d0 docs Hd0) as (d1 & d2 & Hr1 & Hr2 & Hvoc).
  exists d2.
  case_bool_decide as Ha; run; fold d0; rewrite Hr1; run; rewrite Hr2; run;
    rewrite !with_trace_app; unfold with_trace;
    cbn [corpus dictionary_file model_file trace app];
    (eexists; split; [reflexivity|]); observe.
  - split; [lia|]. split; [|split; [|done]].
    + rewrite !concat_app, <- Hb. cbn [concat]. by rewrite !app_nil_r.
    + rewrite !last_cons, !last_app. done.
  - destruct a'; [|simpl in Ha; lia]. rewrite app_nil_r in Hb.
    split; [lia|]. split; [|split; [|done]].
    + rewrite !concat_app, Hb. cbn [concat]. by rewrite !app_nil_r.
    + rewrite !last_cons, !last_app. done.
Qed.

(** The number of articles read by [generate_dictionary]. *)
Lemma articles_read_count cfg w :
  count_events is_next_article (events_of (generate_dictionary cfg) w)
  = min (length (corpus w)) (COUNT_EXAMPLES_FOR_DICTIONARY cfg + 2).
Proof.
  destruct (generate_dictionary_run cfg w) as (d & ev & Hrun & Hc & _).
  rewrite (events_of_trace _ _ ev) by by rewrite Hrun.
  rewrite Hc, length_fmap, length_take. lia.
Qed.

(** The articles read are a prefix of the corpus. *)
Lemma articles_read_prefix cfg w :
  take (count_events is_next_article (events_of (generate_dictionary cfg) w))
       (corpus w)
  = take (S (S (COUNT_EXAMPLES_FOR_DICTIONARY cfg))) (corpus w).
Proof.
  rewrite articles_read_count.
  destruct (decide (COUNT_EXAMPLES_FOR_DICTIONARY cfg + 2 ≤ length (corpus w))).
  - f_equal. lia.
  - rewrite !take_ge by lia. done.
Qed.
End GenerateDictionary.
Lemma utf8_decode_ascii bs :
  Forall (λ b, (b < 128)%N) bs → utf8_decode bs = Some bs.
Proof.
  induction 1 as [|b bs Hb _ IH]; [done|]. simpl.
  apply N.ltb_lt in Hb. by rewrite Hb, IH.
Qed.

Lemma is_ascii_space_range c :
  is_ascii_space c = true → (9 ≤ c ≤ 13 ∨ c = 32)%N.
Proof.
  unfold is_ascii_space.
  rewrite orb_true_iff, andb_true_iff, !N.leb_le, N.eqb_eq. lia.
Qed.

Lemma is_ascii_space_lt c : is_ascii_space c = true → (c < 128)%N.
Proof. intros Hc%is_ascii_space_range. lia. Qed.

Lemma is_ascii_space_is_space c : is_ascii_space c = true → is_space c = true.
Proof.
  intros Hc%is_ascii_space_range. unfold is_space.
  destruct (N.leb_spec 9 c), (N.leb_spec c 13); simpl; try done.
  all: destruct (N.leb_spec 28 c), (N.leb_spec c 32); simpl; try done; lia.
Qed.

Lemma lstrip_spaces s : forallb is_space s = true → lstrip s = [].
Proof.
  induction s as [|c s IH]; [done|]. simpl.
  intros [Hc Hs]%andb_prop. rewrite Hc. auto.
Qed.

Lemma strip_spaces s : forallb is_space s = true → strip s = [].
Proof. intros Hs. unfold strip, rstrip. by rewrite (lstrip_spaces s). Qed.

Section Whitespace.
Context `{Environment}.

Lemma lower_char_space c : is_ascii_space c = true → lower_char c = c.
Proof.
  intros Hc%is_ascii_space_range. unfold lower_char.
  destruct (N.ltb_spec c 128); [|lia].
  destruct (N.leb_spec 65 c); [lia|done].
Qed.

Lemma lower_spaces s : forallb is_ascii_space s = true → lower s = s.
Proof.
  induction s as [|c s IH]; [done|]. simpl.
  intros [Hc Hs]%andb_prop. unfold lower in *. simpl.
  by rewrite lower_char_space, IH.
Qed.

(** The bag of words of the one-token document [[""]]. *)
Lemma doc2bow_empty_token d :
  (doc2bow d [[]] false).2
  = match token2id d !! [] with Some i => [(i, 1)] | None => [] end.
Proof.
  unfold doc2bow. cbn [snd count_tokens foldl].
  rewrite lookup_empty. cbn [default Nat.add]. 
  rewrite items_singleton. cbn [omap list_omap fst snd].
  destruct (token2id d !! []) as [i|];
    unfold py_dict; cbn [fmap option_fmap option_map foldl fst snd].
  - by rewrite items_singleton.
  - by rewrite items_empty.
Qed.

Lemma whitespace_tokens s :
  whitespace_only s = true →
  ∃ u, decode s = Some u ∧ split SPACE (strip (lower u)) = [[]].
Proof.
  unfold whitespace_only, decode. intros Hs. exists (bytes_of s).
  assert (Hall : Forall (λ b, is_ascii_space b = true) (bytes_of s)).
  { apply Forall_forall. intros b Hb. apply list_elem_of_In in Hb.
    revert b Hb. by apply forallb_forall. }
  split.
  - apply utf8_decode_ascii. eapply Forall_impl; [exact Hall|].
    apply is_ascii_space_lt.
  - rewrite lower_spaces by done. rewrite strip_spaces; [done|].
    apply forallb_forall. intros b Hb. apply is_ascii_space_is_space.
    revert b Hb. by apply forallb_forall.
Qed.

(** C10: a non-empty sentence made of white space only passes the check of
    [test_lda] (its length is at least 1); stripping and splitting leave the
    one-token list [[""]], and, with both artifacts in place, the run ends
    normally after querying the model with the bag of words of that list:
    the empty vector when the empty string is not a token of the
    vocabulary, and [[(i, 1)]] when it is the token with id [i]. *)
Theorem test_lda_whitespace_sentence cfg s d m w :
  1 ≤ String.length s →
  whitespace_only s = true →
  dictionary_file w = Some d →
  model_file w = Some m →
  ∃ u b,
    decode s = Some u
    ∧ split SPACE (strip (lower u)) = [[]]
    ∧ b = match token2id d !! [] with Some i => [(i, 1)] | None => [] end
    ∧ (token2id d !! [] = None → b = [])
    ∧ test_lda cfg (Some s) w
      = (Ok tt, with_trace w (mismatch_events cfg [[]]
                              ++ [DictLoad; LdaLoad; DictDoc2Bow [[]];
                                  LdaInfer b;
                                  Print (MsgTopicsOfSentence m b)])).
Proof.
  intros Hlen Hs Hd Hm.
  destruct (whitespace_tokens s Hs) as (u & Hu & Htoks).
  exists u, (match token2id d !! [] with Some i => [(i, 1)] | None => [] end).
  split; [done|]. split; [done|]. split; [done|].
  split; [by intros ->|].
  rewrite (test_lda_nonempty _ _ _ Hlen), Hu, Hd, Hm. cbv zeta.
  by rewrite Htoks, doc2bow_empty_token.
Qed.
End Whitespace.


(** ** train_lda *)

Lemma update_batches_app a b :
  update_batches (a ++ b) = update_batches a ++ update_batches b.
Proof. apply omap_app. Qed.

Lemma update_batches_cons e es :
  update_batches (e :: es)
  = match e with LdaUpdate b => [b] | _ => [] end ++ update_batches es.
Proof. by destruct e. Qed.

Lemma update_batches_nil : update_batches [] = [].
Proof. done. Qed.

Ltac batches :=
  rewrite ?update_batches_cons, ?update_batches_app, ?update_batches_nil;
  cbn [app length].

Lemma div_step F r : 1 ≤ F → (F + r) / F = S (r / F).
Proof.
  intros HF. replace (F + r) with (1 * F + r) by lia.
  rewrite Nat.div_add_l by lia. lia.
Qed.

Lemma mod_step F r : 1 ≤ F → (F + r) mod F = r mod F.
Proof.
  intros HF. replace (F + r) with (r + 1 * F) by lia.
  apply Nat.Div0.mod_add.
Qed.

Section Id2Word.
Context `{Environment}.

Lemma build_id2word_fold d (l : list (ustring * nat)) (acc : gmap nat ustring) :
  (∀ t i, (t, i) ∈ l → token2id d !! t = Some i) →
  foldl (λ (i2w : gmap nat ustring) (t : ustring),
           match token2id d !! t with
           | Some i => <[i := t]> i2w
           | None => i2w
           end) acc (l.*1)
  = foldl (λ (m : gmap nat ustring) (kv : nat * ustring),
             <[kv.1 := kv.2]> m) acc (prod_swap <$> l).
Proof.
  revert acc. induction l as [|[t i] l IH]; intros acc Hl; [done|]. simpl.
  rewrite (Hl t i) by left. apply IH. intros t' i' Hin. apply Hl. by right.
Qed.

(** The loop of [build_id2word] stores the swapped pairs of [token2id]. *)
Lemma build_id2word_py_dict d :
  build_id2word d = py_dict (prod_swap <$> items (token2id d)).
Proof.
  unfold build_id2word, keys, py_dict. apply build_id2word_fold.
  intros t i. apply elem_of_items.
Qed.

(** On a vocabulary with distinct ids, [build_id2word] is the inverse
    mapping. *)
Lemma build_id2word_lookup d i t :
  ids_injective (token2id d) →
  build_id2word d !! i = Some t ↔ token2id d !! t = Some i.
Proof.
  intros Hinj. rewrite build_id2word_py_dict, py_dict_lookup.
  - rewrite list_elem_of_fmap. split.
    + intros ([t' i'] & [= -> ->] & Hin). by apply elem_of_items.
    + intros Ht. exists (t, i). split; [done|]. by apply elem_of_items.
  - intros k t1 t2 ([t1' i1] & [= -> ->] & Hin1%elem_of_items)%list_elem_of_fmap
                   ([t2' i2] & [= E ->] & Hin2%elem_of_items)%list_elem_of_fmap.
    subst. by eapply Hinj.
Qed.

(** [build_id2word] gives an empty mapping exactly for an empty
    vocabulary. *)
Lemma build_id2word_empty d :
  size (build_id2word d) = 0 ↔ size (token2id d) = 0.
Proof.
  rewrite !map_size_empty_iff, build_id2word_py_dict. split.
  - intros Hempty. apply map_empty. intros t.
    destruct (token2id d !! t) as [i|] eqn:Ht; [|done].
    assert (His : is_Some (py_dict (prod_swap <$> items (token2id d)) !! i)).
    { apply py_dict_is_Some, list_elem_of_fmap. exists (i, t).
      split; [done|]. apply list_elem_of_fmap. exists (t, i).
      split; [done|]. by apply elem_of_items. }
    rewrite Hempty, lookup_empty in His. by destruct His.
  - intros ->. by rewrite items_empty.
Qed.

Lemma train_loop_id2word cfg d windows : ∀ i examples m e' m' ev,
  train_loop cfg d i windows examples m = (e', m', ev) →
  id2word m' = id2word m.
Proof.
  induction windows as [|window windows IH]; intros i examples m e' m' ev Hrun.
  - simpl in Hrun. by injection Hrun as <- <- <-.
  - cbn [train_loop] in Hrun. cbv zeta in Hrun.
    destruct (bool_decide (update_every_n_windows cfg ≤ _));
      destruct (bool_decide (COUNT_EXAMPLES_FOR_LDA cfg ≤ i)); cbv iota in Hrun.
    1, 3: by injection Hrun as <- <- <-.
    all: destruct (train_loop _ _ _ _ _ _) as [[e1 m1] ev1] eqn:Hrec;
      injection Hrun as <- <- <-; by rewrite (IH _ _ _ _ _ _ Hrec).
Qed.
End Id2Word.

Section TrainLda.
Context `{Environment}.

(** The loop of [train_lda] started at index [i] with fewer than a full
    batch of examples: it consumes [min (length windows) (cap + 1 - i)]
    windows, flushes once per [update_every_n_windows] examples, each time
    with exactly that many, and keeps the remainder. *)
Lemma train_loop_spec cfg d windows :
  1 ≤ update_every_n_windows cfg →
  ∀ i examples m e' m' ev,
    length examples < update_every_n_windows cfg →
    i ≤ COUNT_EXAMPLES_FOR_LDA cfg →
    train_loop cfg d i windows examples m = (e', m', ev) →
    let n := length examples
             + min (length windows) (S (COUNT_EXAMPLES_FOR_LDA cfg) - i) in
    length (update_batches ev) = n / update_every_n_windows cfg
    ∧ length e' = n mod update_every_n_windows cfg
    ∧ Forall (λ b, length b = update_every_n_windows cfg) (update_batches ev)
    ∧ updates m' = updates m ++ update_batches ev.
Proof.
  intros HF. induction windows as [|window windows IH];
    intros i examples m e' m' ev Hex Hi Hrun; cbv zeta.
  - simpl in Hrun. injection Hrun as <- <- <-. simpl.
    rewrite Nat.add_0_r, Nat.div_small, Nat.mod_small, app_nil_r by done. done.
  - cbn [train_loop] in Hrun. cbv zeta in Hrun.
    set (toks := (λ token, lower (word token)) <$> tokens window) in Hrun.
    set (b := (doc2bow d toks false).2) in Hrun.
    assert (Hlen : length (examples ++ [b]) = S (length examples))
      by (rewrite length_app; simpl; lia).
    clearbody b toks. rewrite Hlen in Hrun.
    destruct (decide (update_every_n_windows cfg ≤ S (length examples)))
      as [Hfl|Hfl].
    + rewrite (bool_decide_eq_true_2 _ Hfl) in Hrun. cbv iota in Hrun.
      case_bool_decide as Hcap.
      * injection Hrun as <- <- <-. batches.
        replace (S (length windows) `min` (S (COUNT_EXAMPLES_FOR_LDA cfg) - i))
          with 1 by lia.
        replace (length examples + 1) with (update_every_n_windows cfg + 0)
          by lia.
        rewrite div_step, mod_step, Nat.div_small, Nat.mod_small by lia.
        repeat split; auto. constructor; [lia|constructor].
      * destruct (train_loop _ _ _ _ _ _) as [[e1 m1] ev1] eqn:Hrec.
        injection Hrun as <- <- <-.
        apply IH in Hrec; [|simpl; lia|lia].
        destruct Hrec as (Hc & Hm & Hall & Hup). cbn [length Nat.add] in Hc, Hm.
        batches. rewrite Hup. cbn [lda_update updates].
        replace (length examples
                 + S (length windows) `min` (S (COUNT_EXAMPLES_FOR_LDA cfg) - i))
          with (update_every_n_windows cfg
                + min (length windows) (S (COUNT_EXAMPLES_FOR_LDA cfg) - S i))
          by lia.
        rewrite div_step, mod_step by lia. rewrite <- app_assoc.
        repeat split; auto. constructor; [lia|done].
    + rewrite (bool_decide_eq_false_2 _ Hfl) in Hrun. cbv iota in Hrun.
      case_bool_decide as Hcap.
      * injection Hrun as <- <- <-. batches.
        replace (S (length windows) `min` (S (COUNT_EXAMPLES_FOR_LDA cfg) - i))
          with 1 by lia.
        rewrite Nat.div_small, Nat.mod_small, Hlen by lia.
        rewrite app_nil_r. repeat split; auto; lia.
      * destruct (train_loop _ _ _ _ _ _) as [[e1 m1] ev1] eqn:Hrec.
        injection Hrun as <- <- <-.
        apply IH in Hrec; [|lia|lia].
        destruct Hrec as (Hc & Hm & Hall & Hup). rewrite Hlen in Hc, Hm.
        batches.
        replace (length examples
                 + S (length windows) `min` (S (COUNT_EXAMPLES_FOR_LDA cfg) - i))
          with (S (length examples)
                + min (length windows) (S (COUNT_EXAMPLES_FOR_LDA cfg) - S i))
          by lia.
        repeat split; auto.
Qed.

(** The run of [train_lda] when the dictionary file holds a vocabulary
    that is not empty: the calls before the loop, the calls of the loop,
    then the save. *)
Lemma train_lda_run cfg w d :
  dictionary_file w = Some d →
  0 < size (token2id d) →
  ∃ e m ev,
    train_loop cfg d 0 (load_windows (corpus w) (LDA_WINDOW_SIZE cfg) true) []
               (initial_model cfg d) = (e, m, ev)
    ∧ train_lda cfg w
      = (Ok tt,
         {| corpus := corpus w; dictionary_file := Some d;
            model_file := Some m;
            trace := trace w ++ train_prologue cfg d ++ ev
                       ++ [Print MsgSaving; LdaSave m] |}).
Proof.
  intros Hd Hne.
  assert (Hterms : bool_decide (size (build_id2word d) = 0) = false).
  { apply bool_decide_eq_false_2. rewrite build_id2word_empty. lia. }
  unfold train_lda. run.
  cbn [dictionary_file with_trace]. rewrite Hd. run. rewrite Hterms. run.
  cbn [corpus with_trace].
  fold (initial_model cfg d).
  destruct (train_loop _ _ _ _ _ _) as [[e m] ev] eqn:Hloop.
  exists e, m, ev. split; [done|]. run.
  rewrite !with_trace_app. unfold with_trace, train_prologue.
  cbn [corpus dictionary_file model_file trace app].
  by rewrite Hd.
Qed.

(** The run of [train_lda] when the dictionary file holds an empty
    vocabulary: the constructor of the model raises, and nothing is read,
    updated or saved. *)
Lemma train_lda_empty_vocabulary cfg w d :
  dictionary_file w = Some d →
  size (token2id d) = 0 →
  train_lda cfg w = (Raise ValueError, with_trace w (train_init_calls cfg d)).
Proof.
  intros Hd Hempty.
  assert (Hterms : bool_decide (size (build_id2word d) = 0) = true).
  { apply bool_decide_eq_true_2. by rewrite build_id2word_empty. }
  unfold train_lda. run.
  cbn [dictionary_file with_trace]. rewrite Hd. run. rewrite Hterms. run.
  by rewrite !with_trace_app.
Qed.

Lemma train_lda_no_dictionary cfg w :
  dictionary_file w = None →
  train_lda cfg w
  = (Raise LoadError,
     with_trace w [Print MsgRule; Print MsgTrainingModel; Print MsgRule;
                   Print MsgLoadingDictionary; DictLoad]).
Proof.
  intros Hd. unfold train_lda. run.
  cbn [dictionary_file with_trace]. rewrite Hd.
  by rewrite !with_trace_app.
Qed.
End TrainLda.

(** * The claims *)

Section Claims.
Context `{Environment}.

(** The number of updates of a run of [train_lda]. *)
Lemma train_lda_update_count cfg w d :
  dictionary_file w = Some d →
  0 < size (token2id d) →
  1 ≤ update_every_n_windows cfg →
  let W := length (load_windows (corpus w) (LDA_WINDOW_SIZE cfg) true) in
  let n := min W (S (COUNT_EXAMPLES_FOR_LDA cfg)) / update_every_n_windows cfg in
  ∃ ev m,
    (train_lda cfg w).1 = Ok tt
    ∧ model_file (train_lda cfg w).2 = Some m
    ∧ events_of (train_lda cfg) w = ev ++ [Print MsgSaving; LdaSave m]
    ∧ length (update_batches ev) = n
    ∧ length (update_batches (events_of (train_lda cfg) w)) = n
    ∧ length (updates m) = n.
Proof.
  intros Hd Hne HF W n.
  destruct (train_lda_run cfg w d Hd Hne) as (e & m & ev & Hloop & Hrun).
  apply train_loop_spec in Hloop as (Hcount & _ & _ & Hup);
    [|done|simpl; lia|lia].
  rewrite Nat.sub_0_r in Hcount. cbn [length Nat.add] in Hcount.
  fold W n in Hcount. cbn [initial_model updates app] in Hup.
  assert (Hev : events_of (train_lda cfg) w
                = (train_prologue cfg d ++ ev) ++ [Print MsgSaving; LdaSave m]).
  { apply events_of_trace. rewrite Hrun. cbn [snd trace].
    by rewrite <- app_assoc. }
  exists (train_prologue cfg d ++ ev), m. rewrite Hrun. cbn [fst snd model_file].
  split; [done|]. split; [done|]. split; [done|].
  assert (Hpre : update_batches (train_prologue cfg d ++ ev) = update_batches ev).
  { by rewrite update_batches_app. }
  split; [by rewrite Hpre|]. split; [|by rewrite Hup].
  rewrite Hev, update_batches_app, Hpre. unfold update_batches at 2. simpl.
  by rewrite app_nil_r.
Qed.

(** C1 (as amended): when the dictionary file holds a vocabulary that is
    not empty, the flush threshold F is at least 1 and the stream has W
    windows, W not above the cap [COUNT_EXAMPLES_FOR_LDA], [train_lda] ends
    normally and issues exactly ⌊W / F⌋ calls to [lda_model.update], all of
    them before the model is saved; the saved model has received exactly
    these updates.  The remainder of fewer than F windows is not given to
    the model. *)
Theorem train_lda_update_calls cfg w d :
  dictionary_file w = Some d →
  0 < size (token2id d) →
  1 ≤ update_every_n_windows cfg →
  let W := length (load_windows (corpus w) (LDA_WINDOW_SIZE cfg) true) in
  W ≤ COUNT_EXAMPLES_FOR_LDA cfg →
  ∃ ev m,
    (train_lda cfg w).1 = Ok tt
    ∧ model_file (train_lda cfg w).2 = Some m
    ∧ events_of (train_lda cfg) w = ev ++ [Print MsgSaving; LdaSave m]
    ∧ length (update_batches ev) = W / update_every_n_windows cfg
    ∧ length (update_batches (events_of (train_lda cfg) w))
      = W / update_every_n_windows cfg
    ∧ length (updates m) = W / update_every_n_windows cfg.
Proof.
  intros Hd Hne HF W HW.
  destruct (train_lda_update_count cfg w d Hd Hne HF)
    as (ev & m & Hok & Hm & Hev & H1 & H2 & H3).
  fold W in H1, H2, H3.
  replace (W `min` S (COUNT_EXAMPLES_FOR_LDA cfg)) with W in * by lia.
  by exists ev, m.
Qed.

(** C4: when the flush threshold F is at least 1 (it is 25000 in
    lda.py), every batch that [train_lda] passes to [lda_model.update]
    holds exactly F bag-of-words vectors, whatever the window stream and
    wherever the loop stops; no smaller batch is passed after the loop. *)
Theorem train_lda_full_batches cfg w :
  1 ≤ update_every_n_windows cfg →
  Forall (λ batch, length batch = update_every_n_windows cfg)
         (update_batches (events_of (train_lda cfg) w)).
Proof.
  intros HF. destruct (dictionary_file w) as [d|] eqn:Hd.
  - destruct (decide (0 < size (token2id d))) as [Hne|Hempty].
    + destruct (train_lda_run cfg w d Hd Hne) as (e & m & ev & Hloop & Hrun).
      apply train_loop_spec in Hloop as (_ & _ & Hall & _);
        [|done|simpl; lia|lia].
      rewrite (events_of_trace _ _ (train_prologue cfg d ++ ev
                                      ++ [Print MsgSaving; LdaSave m]))
        by by rewrite Hrun.
      rewrite !update_batches_app. unfold update_batches at 1 3. simpl.
      by rewrite app_nil_r.
    + assert (Hrun : train_lda cfg w
                     = (Raise ValueError,
                        with_trace w (train_init_calls cfg d)))
        by (apply train_lda_empty_vocabulary; [done|lia]).
      rewrite (events_of_with_trace _ _ _ _ Hrun). constructor.
  - rewrite (events_of_with_trace _ _ _ _ (train_lda_no_dictionary cfg w Hd)).
    constructor.
Qed.

(** C7: with a vocabulary whose ids are distinct in the dictionary file,
    the id → word mapping that [train_lda] builds and gives to the
    constructor of the model is the inverse of the token → id mapping: every
    token's id is mapped back to the token, and the mapping has no other
    entry.  When the vocabulary is not empty, the run goes on and the model
    it saves carries that mapping. *)
Theorem train_lda_id2word_inverse cfg w d :
  dictionary_file w = Some d →
  ids_injective (token2id d) →
  ∃ id2w,
    LdaInit (LDA_COUNT_TOPICS cfg) (LDA_COUNT_WORKERS cfg)
            (LDA_CHUNK_SIZE cfg) id2w
      ∈ events_of (train_lda cfg) w
    ∧ (∀ t i, token2id d !! t = Some i → id2w !! i = Some t)
    ∧ (∀ i t, id2w !! i = Some t → token2id d !! t = Some i)
    ∧ (0 < size (token2id d) →
       ∃ m, model_file (train_lda cfg w).2 = Some m ∧ id2word m = id2w).
Proof.
  intros Hd Hinj. exists (build_id2word d).
  assert (Hinit : LdaInit (LDA_COUNT_TOPICS cfg) (LDA_COUNT_WORKERS cfg)
                    (LDA_CHUNK_SIZE cfg) (build_id2word d)
                  ∈ train_init_calls cfg d).
  { unfold train_init_calls. do 7 (apply elem_of_cons; right).
    apply elem_of_cons. by left. }
  split; [|split; [|split]].
  - destruct (decide (0 < size (token2id d))) as [Hne|Hempty].
    + destruct (train_lda_run cfg w d Hd Hne) as (e & m & ev & _ & Hrun).
      rewrite (events_of_trace _ _ (train_prologue cfg d ++ ev
                                      ++ [Print MsgSaving; LdaSave m]))
        by by rewrite Hrun.
      apply elem_of_app. left.
      change (train_prologue cfg d)
        with (train_init_calls cfg d
              ++ [Print MsgTraining; LoadArticles; LoadWindows]).
      apply elem_of_app. by left.
    + assert (Hrun : train_lda cfg w
                     = (Raise ValueError,
                        with_trace w (train_init_calls cfg d)))
        by (apply train_lda_empty_vocabulary; [done|lia]).
      by rewrite (events_of_with_trace _ _ _ _ Hrun).
  - intros t i Ht. by apply build_id2word_lookup.
  - intros i t Hi. by apply build_id2word_lookup.
  - intros Hne.
    destruct (train_lda_run cfg w d Hd Hne) as (e & m & ev & Hloop & Hrun).
    apply train_loop_id2word in Hloop. cbn [initial_model id2word] in Hloop.
    exists m. by rewrite Hrun.
Qed.

(** [generate_dictionary] reads, tokenizes and accumulates exactly
    min(A, C + 2) articles, where A is the number of articles of the stream
    and C is [COUNT_EXAMPLES_FOR_DICTIONARY]: the test [i > C] lets the loop
    go on to the article of index C + 1. *)
Lemma generate_dictionary_articles_read cfg w :
  count_events is_next_article (events_of (generate_dictionary cfg) w)
  = min (length (corpus w)) (COUNT_EXAMPLES_FOR_DICTIONARY cfg + 2)
  ∧ length (concat (added_batches (events_of (generate_dictionary cfg) w)))
    = min (length (corpus w)) (COUNT_EXAMPLES_FOR_DICTIONARY cfg + 2).
Proof.
  rewrite articles_read_count.
  destruct (generate_dictionary_run cfg w) as (d & ev & Hrun & _ & Hb & _).
  rewrite (events_of_trace _ _ ev) by by rewrite Hrun.
  rewrite Hb, length_fmap, length_take. lia.
Qed.

(** C3: [generate_dictionary] always ends normally and saves a
    vocabulary in which every token has a recorded document frequency of at
    least the threshold [IGNORE_WORDS_BELOW_COUNT] (that frequency being the
    number of articles read that contain the token), and whose ids are
    exactly 0, 1, ..., size - 1, no two tokens sharing one. *)
Theorem generate_dictionary_filtered cfg w :
  let n :=
    count_events is_next_article (events_of (generate_dictionary cfg) w) in
  let docs := tokenize <$> take n (corpus w) in
  ∃ d,
    (generate_dictionary cfg w).1 = Ok tt
    ∧ dictionary_file (generate_dictionary cfg w).2 = Some d
    ∧ last (events_of (generate_dictionary cfg) w) = Some (DictSave d)
    ∧ (∀ t i, token2id d !! t = Some i →
         ∃ f, dfs d !! i = Some f
              ∧ IGNORE_WORDS_BELOW_COUNT cfg ≤ f
              ∧ f = doc_freq t docs)
    ∧ (∀ i, i < size (token2id d) ↔ ∃ t, token2id d !! t = Some i)
    ∧ ids_injective (token2id d).
Proof.
  intros n docs. unfold docs, n. rewrite articles_read_prefix. clear n docs.
  destruct (generate_dictionary_run cfg w)
    as (d & ev & Hrun & _ & _ & Hlast & Hinj & Hcont & _ & Hdom & Hdf).
  exists d. rewrite (events_of_trace _ _ ev) by by rewrite Hrun.
  rewrite Hrun. cbn [fst snd dictionary_file].
  split; [done|]. split; [done|]. split; [done|]. split; [|done].
  intros t i Hi. eexists. split; [by apply Hdf|].
  split; [|done]. apply Hdom. eauto.
Qed.

(** C9: [generate_dictionary] gives every article it tokenized to
    [dictionary.add_documents]: the batches added, in order and including
    the final batch of fewer than [update_every_n_articles] articles, make
    up exactly the tokenized articles that were read.  So the document
    frequency saved for a token counts all of them, and a token is in the
    saved vocabulary exactly when it occurs in at least one and in at least
    [IGNORE_WORDS_BELOW_COUNT] of them. *)
Theorem generate_dictionary_adds_every_article cfg w :
  let n :=
    count_events is_next_article (events_of (generate_dictionary cfg) w) in
  let docs := tokenize <$> take n (corpus w) in
  concat (added_batches (events_of (generate_dictionary cfg) w)) = docs
  ∧ ∃ d,
      dictionary_file (generate_dictionary cfg w).2 = Some d
      ∧ (∀ t, is_Some (token2id d !! t)
              ↔ 0 < doc_freq t docs
                ∧ IGNORE_WORDS_BELOW_COUNT cfg ≤ doc_freq t docs)
      ∧ (∀ t i, token2id d !! t = Some i →
                dfs d !! i = Some (doc_freq t docs)).
Proof.
  intros n docs. unfold docs, n. rewrite articles_read_prefix. clear n docs.
  destruct (generate_dictionary_run cfg w)
    as (d & ev & Hrun & _ & Hb & _ & _ & _ & _ & Hdom & Hdf).
  rewrite (events_of_trace _ _ ev) by by rewrite Hrun.
  split; [done|]. exists d. by rewrite Hrun.
Qed.
End Claims.


(** * Further properties of the script *)

Section TrainLdaMore.
Context `{Environment}.

(** The loop of [train_lda] passes the bags of words on in stream order:
    the batches flushed, followed by what is left in [examples], are the
    examples it started with followed by the bags of the windows read. *)
Lemma train_loop_order cfg d windows :
  ∀ i examples m e' m' ev,
    i ≤ COUNT_EXAMPLES_FOR_LDA cfg →
    train_loop cfg d i windows examples m = (e', m', ev) →
    concat (update_batches ev) ++ e'
    = examples
      ++ (window_bow d <$> take (S (COUNT_EXAMPLES_FOR_LDA cfg) - i) windows).
Proof.
  induction windows as [|window windows IH];
    intros i examples m e' m' ev Hi Hrun.
  - simpl in Hrun. injection Hrun as <- <- <-. rewrite take_nil. simpl.
    by rewrite app_nil_r.
  - cbn [train_loop] in Hrun. cbv zeta in Hrun.
    fold (window_bow d window) in Hrun.
    set (batch := examples ++ [window_bow d window]) in Hrun.
    destruct (bool_decide (update_every_n_windows cfg ≤ length batch));
      cbv iota in Hrun.
    + case_bool_decide as Hcap.
      * injection Hrun as <- <- <-. batches.
        replace (S (COUNT_EXAMPLES_FOR_LDA cfg) - i) with 1 by lia.
        simpl. by rewrite !app_nil_r.
      * destruct (train_loop _ _ _ _ _ _) as [[e1 m1] ev1] eqn:Hrec.
        injection Hrun as <- <- <-.
        apply IH in Hrec; [|lia]. batches. cbn [concat].
        rewrite <- app_assoc, Hrec.
        replace (S (COUNT_EXAMPLES_FOR_LDA cfg) - i)
          with (S (S (COUNT_EXAMPLES_FOR_LDA cfg) - S i)) by lia.
        cbn [take fmap list_fmap app]. unfold batch.
        by rewrite <- app_assoc.
    + case_bool_decide as Hcap.
      * injection Hrun as <- <- <-. batches.
        replace (S (COUNT_EXAMPLES_FOR_LDA cfg) - i) with 1 by lia.
        by simpl.
      * destruct (train_loop _ _ _ _ _ _) as [[e1 m1] ev1] eqn:Hrec.
        injection Hrun as <- <- <-.
        apply IH in Hrec; [|lia]. batches. rewrite Hrec.
        replace (S (COUNT_EXAMPLES_FOR_LDA cfg) - i)
          with (S (S (COUNT_EXAMPLES_FOR_LDA cfg) - S i)) by lia.
        cbn [take fmap list_fmap app]. unfold batch.
        by rewrite <- app_assoc.
Qed.

(** The loop of [train_lda] changes nothing of the model but its updates. *)
Lemma train_loop_configuration cfg d windows : ∀ i examples m e' m' ev,
  train_loop cfg d i windows examples m = (e', m', ev) →
  num_topics m' = num_topics m
  ∧ workers m' = workers m
  ∧ chunksize m' = chunksize m.
Proof.
  induction windows as [|window windows IH]; intros i examples m e' m' ev Hrun.
  - simpl in Hrun. by injection Hrun as <- <- <-.
  - cbn [train_loop] in Hrun. cbv zeta in Hrun.
    destruct (bool_decide (update_every_n_windows cfg ≤ _));
      destruct (bool_decide (COUNT_EXAMPLES_FOR_LDA cfg ≤ i)); cbv iota in Hrun.
    1, 3: by injection Hrun as <- <- <-.
    all: destruct (train_loop _ _ _ _ _ _) as [[e1 m1] ev1] eqn:Hrec;
      injection Hrun as <- <- <-; by apply IH in Hrec.
Qed.

(** The updates of the model after the loop are those it had, followed by
    the batches flushed. *)
Lemma train_loop_updates cfg d windows : ∀ i examples m e' m' ev,
  train_loop cfg d i windows examples m = (e', m', ev) →
  updates m' = updates m ++ update_batches ev.
Proof.
  induction windows as [|window windows IH]; intros i examples m e' m' ev Hrun.
  - simpl in Hrun. injection Hrun as <- <- <-. by rewrite app_nil_r.
  - cbn [train_loop] in Hrun. cbv zeta in Hrun.
    destruct (bool_decide (update_every_n_windows cfg ≤ _));
      destruct (bool_decide (COUNT_EXAMPLES_FOR_LDA cfg ≤ i)); cbv iota in Hrun.
    + injection Hrun as <- <- <-. batches. by rewrite ?app_nil_r.
    + destruct (train_loop _ _ _ _ _ _) as [[e1 m1] ev1] eqn:Hrec.
      injection Hrun as <- <- <-. apply IH in Hrec. batches.
      rewrite Hrec. cbn [lda_update updates]. by rewrite <- app_assoc.
    + injection Hrun as <- <- <-. batches. by rewrite ?app_nil_r.
    + destruct (train_loop _ _ _ _ _ _) as [[e1 m1] ev1] eqn:Hrec.
      injection Hrun as <- <- <-. apply IH in Hrec. by batches.
Qed.

(** X1: without a dictionary file, [train_lda] fails with the load error
    right after announcing the load: no model is created, updated or saved,
    the corpus is not opened, and the three files are as before. *)
Theorem train_lda_missing_dictionary cfg w :
  dictionary_file w = None →
  (train_lda cfg w).1 = Raise LoadError
  ∧ events_of (train_lda cfg) w
    = [Print MsgRule; Print MsgTrainingModel; Print MsgRule;
       Print MsgLoadingDictionary; DictLoad]
  ∧ model_file (train_lda cfg w).2 = model_file w
  ∧ dictionary_file (train_lda cfg w).2 = None
  ∧ corpus (train_lda cfg w).2 = corpus w.
Proof.
  intros Hd. pose proof (train_lda_no_dictionary cfg w Hd) as Hrun.
  rewrite (events_of_with_trace _ _ _ _ Hrun), Hrun. by cbn.
Qed.

(** X2: with a non-empty vocabulary on file (LdaMulticore needs at least
    one term), [train_lda] feeds the model in stream order: the batches given
    to [lda_model.update], laid end to end, are a prefix of the bags of words
    of the windows of the stream, each window converted with the loaded
    vocabulary; nothing is reordered, repeated or skipped inside that prefix,
    and the saved model has received exactly these batches. *)
Theorem train_lda_feeds_in_stream_order cfg w d :
  dictionary_file w = Some d →
  0 < size (token2id d) →
  let windows := load_windows (corpus w) (LDA_WINDOW_SIZE cfg) true in
  let batches := update_batches (events_of (train_lda cfg) w) in
  concat batches `prefix_of` (window_bow d <$> windows)
  ∧ ∃ m, model_file (train_lda cfg w).2 = Some m ∧ updates m = batches.
Proof.
  intros Hd Hne windows bs.
  destruct (train_lda_run cfg w d Hd Hne) as (e & m & ev & Hloop & Hrun).
  assert (Hev : bs = update_batches ev).
  { unfold bs.
    rewrite (events_of_trace _ _ (train_prologue cfg d ++ ev
                                    ++ [Print MsgSaving; LdaSave m]))
      by by rewrite Hrun.
    rewrite !update_batches_app. unfold update_batches at 1 3. simpl.
    by rewrite app_nil_r. }
  fold windows in Hloop. split.
  - apply train_loop_order in Hloop; [|lia]. cbn [app] in Hloop.
    rewrite Hev. rewrite Nat.sub_0_r in Hloop.
    exists (e ++ (window_bow d <$> drop (S (COUNT_EXAMPLES_FOR_LDA cfg)) windows)).
    rewrite app_assoc, Hloop, <- fmap_app. by rewrite take_drop.
  - exists m. rewrite Hrun. split; [done|]. rewrite Hev.
    by apply train_loop_updates in Hloop.
Qed.

(** X3: with a non-empty vocabulary on file, [train_lda] ends normally
    whatever the corpus and the thresholds: it saves one model, as its last
    call, with the configured number of topics, workers and chunk size, and
    leaves the dictionary file and the corpus as they were. *)
Theorem train_lda_saves_configured_model cfg w d :
  dictionary_file w = Some d →
  0 < size (token2id d) →
  ∃ m,
    (train_lda cfg w).1 = Ok tt
    ∧ model_file (train_lda cfg w).2 = Some m
    ∧ last (events_of (train_lda cfg) w) = Some (LdaSave m)
    ∧ num_topics m = LDA_COUNT_TOPICS cfg
    ∧ workers m = LDA_COUNT_WORKERS cfg
    ∧ chunksize m = LDA_CHUNK_SIZE cfg
    ∧ dictionary_file (train_lda cfg w).2 = Some d
    ∧ corpus (train_lda cfg w).2 = corpus w.
Proof.
  intros Hd Hne.
  destruct (train_lda_run cfg w d Hd Hne) as (e & m & ev & Hloop & Hrun).
  apply train_loop_configuration in Hloop as (Ht & Hw & Hc).
  exists m.
  rewrite (events_of_trace _ _ (train_prologue cfg d ++ ev
                                  ++ [Print MsgSaving; LdaSave m]))
    by by rewrite Hrun.
  rewrite Hrun. cbn [fst snd model_file dictionary_file corpus].
  repeat split; try done.
  by rewrite !last_app.
Qed.
End TrainLdaMore.


Lemma map_size_le_keys `{Countable K} {A B} (m1 : gmap K A) (m2 : gmap K B) :
  (∀ k, is_Some (m1 !! k) → is_Some (m2 !! k)) → size m1 ≤ size m2.
Proof.
  intros Hk. rewrite <- !size_dom. apply subseteq_size. intros k.
  rewrite !elem_of_dom. apply Hk.
Qed.

Section GenerateDictionaryMore.
Context `{Environment}.

(** The loop of [generate_dictionary] started with fewer than a full batch:
    every batch it adds has exactly [update_every_n_articles] documents, and
    fewer than that are left over. *)
Lemma dictionary_loop_batches cfg articles :
  1 ≤ update_every_n_articles cfg →
  ∀ i articles_str d a' d' ev,
    length articles_str < update_every_n_articles cfg →
    dictionary_loop cfg i articles articles_str d = (a', d', ev) →
    Forall (λ b, length b = update_every_n_articles cfg) (added_batches ev)
    ∧ length a' < update_every_n_articles cfg.
Proof.
  intros HN. induction articles as [|article articles IH];
    intros i articles_str d a' d' ev Hlen Hrun.
  - simpl in Hrun. injection Hrun as <- <- <-. split; [constructor|done].
  - cbn [dictionary_loop] in Hrun. cbv zeta in Hrun.
    set (batch := articles_str ++ [tokenize article]) in Hrun.
    assert (Hb : length batch = S (length articles_str))
      by (unfold batch; rewrite length_app; simpl; lia).
    clearbody batch.
    destruct (decide (update_every_n_articles cfg ≤ length batch)) as [Hfl|Hfl].
    + rewrite (bool_decide_eq_true_2 _ Hfl) in Hrun. cbv iota in Hrun.
      case_bool_decide as Hcap.
      * injection Hrun as <- <- <-. observe.
        split; [|simpl; lia]. constructor; [lia|constructor].
      * destruct (dictionary_loop _ _ _ _ _) as [[a1 d1] ev1] eqn:Hrec.
        injection Hrun as <- <- <-.
        apply IH in Hrec as [Hall Hrest]; [|simpl; lia]. observe.
        split; [|done]. constructor; [lia|done].
    + rewrite (bool_decide_eq_false_2 _ Hfl) in Hrun. cbv iota in Hrun.
      case_bool_decide as Hcap.
      * injection Hrun as <- <- <-. observe. split; [constructor|lia].
      * destruct (dictionary_loop _ _ _ _ _) as [[a1 d1] ev1] eqn:Hrec.
        injection Hrun as <- <- <-.
        apply IH in Hrec as [Hall Hrest]; [|lia]. by observe.
Qed.

(** The run of [generate_dictionary] in full: the calls before the loop, the
    calls of the loop, and the calls after it. *)
Lemma generate_dictionary_trace cfg w :
  ∃ rest d' ev d0 d1 d2,
    dictionary_loop cfg 0 (corpus w) [] empty_dictionary = (rest, d', ev)
    ∧ d0 = (if bool_decide (0 < length rest)
            then add_documents d' rest else d')
    ∧ filter_tokens d0 (rare_ids cfg d0) = Some d1
    ∧ compactify d1 = Some d2
    ∧ generate_dictionary cfg w
      = (Ok tt,
         {| corpus := corpus w; dictionary_file := Some d2;
            model_file := model_file w;
            trace := trace w
                     ++ [Print MsgRule; Print MsgGeneratingDictionary;
                         Print MsgRule; LoadArticles]
                     ++ ev ++ dictionary_epilogue cfg rest d0 d2 |}).
Proof.
  unfold generate_dictionary. run. cbn [corpus with_trace].
  destruct (dictionary_loop _ _ _ _ _) as [[a' d'] ev] eqn:Hloop.
  pose proof Hloop as (_ & Hb & Hd)%dictionary_loop_spec; [|lia].
  rewrite Nat.sub_0_r in Hb. cbn [app] in Hb.
  set (docs := tokenize <$> take (S (S (COUNT_EXAMPLES_FOR_DICTIONARY cfg)))
                                 (corpus w)) in Hb.
  set (d0 := if bool_decide (0 < length a') then add_documents d' a' else d').
  assert (Hd0 : vocabulary_of d0 docs).
  { unfold d0. rewrite Hd, <- Hb. case_bool_decide as Ha.
    - rewrite <- add_documents_app.
      apply (add_documents_vocabulary _ _ []), vocabulary_of_empty.
    - destruct a'; [|simpl in Ha; lia]. rewrite app_nil_r.
      apply (add_documents_vocabulary _ _ []), vocabulary_of_empty. }
  destruct (filter_rare_spec cfg d0 docs Hd0) as (d1 & d2 & Hr1 & Hr2 & _).
  exists a', d', ev, d0, d1, d2.
  split; [done|]. split; [done|]. split; [done|]. split; [done|].
  unfold dictionary_epilogue. fold d0.
  case_bool_decide as Ha; run; fold d0; rewrite Hr1; run; rewrite Hr2; run;
    rewrite !with_trace_app; unfold with_trace;
    cbn [corpus dictionary_file model_file trace app];
    do 3 f_equal; rewrite <- !app_assoc; reflexivity.
Qed.

(** The vocabulary saved and the calls made depend on the corpus only. *)
Lemma generate_dictionary_corpus_only cfg w w' :
  corpus w = corpus w' →
  dictionary_file (generate_dictionary cfg w).2
  = dictionary_file (generate_dictionary cfg w').2
  ∧ events_of (generate_dictionary cfg) w
    = events_of (generate_dictionary cfg) w'.
Proof.
  intros Hc.
  destruct (generate_dictionary_trace cfg w)
    as (r1 & a1 & e1 & x1 & y1 & z1 & Hl1 & Hx1 & Hf1 & Hc1 & Hrun1).
  destruct (generate_dictionary_trace cfg w')
    as (r2 & a2 & e2 & x2 & y2 & z2 & Hl2 & Hx2 & Hf2 & Hc2 & Hrun2).
  rewrite <- Hc, Hl1 in Hl2. injection Hl2 as <- <- <-.
  subst x1 x2. rewrite Hf1 in Hf2. injection Hf2 as <-.
  rewrite Hc1 in Hc2. injection Hc2 as <-.
  rewrite (events_of_trace _ _ _ (f_equal trace (f_equal snd Hrun1))).
  rewrite (events_of_trace _ _ _ (f_equal trace (f_equal snd Hrun2))).
  by rewrite Hrun1, Hrun2.
Qed.

(** X4: with a flush threshold of at least 1, every batch that
    [generate_dictionary] gives to [add_documents] is non-empty and holds at
    most [update_every_n_articles] documents, and every batch but the last
    holds exactly that many: only the final flush can be partial. *)
Theorem generate_dictionary_batch_sizes cfg w :
  1 ≤ update_every_n_articles cfg →
  let batches := added_batches (events_of (generate_dictionary cfg) w) in
  Forall (λ b, 0 < length b ≤ update_every_n_articles cfg) batches
  ∧ ∀ k b, batches !! k = Some b → S k < length batches →
           length b = update_every_n_articles cfg.
Proof.
  intros HN bs.
  destruct (generate_dictionary_trace cfg w)
    as (rest & d' & ev & d0 & d1 & d2 & Hloop & _ & _ & _ & Hrun).
  apply dictionary_loop_batches in Hloop as [Hall Hrest]; [|done|simpl; lia].
  assert (Hbs : bs = added_batches ev
                     ++ (if bool_decide (0 < length rest) then [rest] else [])).
  { unfold bs.
    rewrite (events_of_trace _ _ _ (f_equal trace (f_equal snd Hrun))).
    unfold dictionary_epilogue. observe.
    case_bool_decide; observe; by rewrite ?app_nil_r. }
  rewrite Hbs. split.
  - apply Forall_app. split.
    + eapply Forall_impl; [exact Hall|]. simpl. lia.
    + case_bool_decide; repeat constructor; lia.
  - intros k b Hk Hlt. rewrite length_app in Hlt.
    assert (Hin : k < length (added_batches ev)).
    { case_bool_decide; simpl in Hlt; lia. }
    rewrite lookup_app_l in Hk by done.
    eapply Forall_lookup_1 in Hall; [|exact Hk]. done.
Qed.

(** X5: [generate_dictionary] builds its vocabulary from scratch: the
    vocabulary saved and the calls made depend on the corpus only, not on a
    dictionary or model file left by an earlier run; the model file and the
    corpus are left as they were. *)
Theorem generate_dictionary_ignores_old_artifacts cfg w w' :
  corpus w = corpus w' →
  dictionary_file (generate_dictionary cfg w).2
  = dictionary_file (generate_dictionary cfg w').2
  ∧ events_of (generate_dictionary cfg) w
    = events_of (generate_dictionary cfg) w'
  ∧ model_file (generate_dictionary cfg w).2 = model_file w
  ∧ corpus (generate_dictionary cfg w).2 = corpus w.
Proof.
  intros Hc. destruct (generate_dictionary_corpus_only cfg w w' Hc) as [Hd He].
  split; [done|]. split; [done|].
  destruct (generate_dictionary_trace cfg w)
    as (? & ? & ? & ? & ? & ? & _ & _ & _ & _ & Hrun).
  by rewrite Hrun.
Qed.

(** X6: running [generate_dictionary] twice in a row saves the same
    vocabulary as running it once, and the second run makes the same calls
    as the first. *)
Theorem generate_dictionary_twice cfg w :
  let once := (generate_dictionary cfg w).2 in
  ((generate_dictionary cfg ;; generate_dictionary cfg) w).1 = Ok tt
  ∧ dictionary_file ((generate_dictionary cfg ;; generate_dictionary cfg) w).2
    = dictionary_file once
  ∧ events_of (generate_dictionary cfg) once
    = events_of (generate_dictionary cfg) w.
Proof.
  intros once.
  destruct (generate_dictionary_trace cfg w)
    as (? & ? & ? & ? & ? & d2 & _ & _ & _ & _ & Hrun).
  assert (Hc : corpus once = corpus w) by (unfold once; by rewrite Hrun).
  destruct (generate_dictionary_corpus_only cfg once w Hc) as [Hd He].
  destruct (generate_dictionary_trace cfg once)
    as (? & ? & ? & ? & ? & d2' & _ & _ & _ & _ & Hrun').
  assert (Hbind : (generate_dictionary cfg ;; generate_dictionary cfg) w
                  = generate_dictionary cfg once).
  { unfold bind at 1. unfold once.
    destruct (generate_dictionary cfg w) as [[[]|e] w1] eqn:Hg; [done|].
    rewrite Hrun in Hg. discriminate. }
  rewrite Hbind. split; [by rewrite Hrun'|]. split; [|done].
  rewrite Hd. done.
Qed.

(** X7: the number of words that [generate_dictionary] reports after
    filtering is the size of the vocabulary it saves, and it is never more
    than the number it reports before filtering. *)
Theorem generate_dictionary_reported_counts cfg w :
  ∃ d before,
    dictionary_file (generate_dictionary cfg w).2 = Some d
    ∧ Print (MsgLoadedUniqueWords before)
      ∈ events_of (generate_dictionary cfg) w
    ∧ Print (MsgFilteredUniqueWords (size (token2id d)))
      ∈ events_of (generate_dictionary cfg) w
    ∧ size (token2id d) ≤ before.
Proof.
  destruct (generate_dictionary_trace cfg w)
    as (rest & d' & ev & d0 & d1 & d2 & Hloop & Hd0 & Hf & Hc & Hrun).
  exists d2, (size (token2id d0)).
  rewrite (events_of_trace _ _ _ (f_equal trace (f_equal snd Hrun))).
  rewrite Hrun. split; [done|]. unfold dictionary_epilogue.
  split; [|split].
  - rewrite !elem_of_app. right. right. right. left.
  - rewrite !elem_of_app. right. right. right. do 4 right. left.
  - apply dictionary_loop_spec in Hloop as (_ & Hb & Hd'); [|lia].
    assert (Hv : vocabulary_of d0 (concat (added_batches ev) ++ rest)).
    { rewrite Hd0, Hd'. case_bool_decide as Ha.
      - rewrite <- add_documents_app.
        apply (add_documents_vocabulary _ _ []), vocabulary_of_empty.
      - destruct rest; [|simpl in Ha; lia]. rewrite app_nil_r.
        apply (add_documents_vocabulary _ _ []), vocabulary_of_empty. }
    destruct Hv as (Hinj & _ & Hcov & _).
    destruct (filter_tokens_spec d0 (rare_ids cfg d0) Hinj Hcov)
      as (d1' & Hf' & Hinj1 & _ & Hcov1 & Hk1 & _).
    rewrite Hf in Hf'. apply (inj Some) in Hf'. subst d1'.
    destruct (compactify_spec d1 Hinj1 Hcov1) as (d2' & Hc' & _ & _ & _ & Hk2 & _).
    rewrite Hc in Hc'. apply (inj Some) in Hc'. subst d2'.
    apply map_size_le_keys. intros t Ht.
    apply Hk2, Hk1 in Ht as (i & Hi & _). eauto.
Qed.
End GenerateDictionaryMore.


(** Closes [x ∉ [e1; ...; en]] when [x] differs from every [ei] by its
    constructor. *)
Ltac not_in_list :=
  let Hin := fresh "Hin" in
  intros Hin;
  repeat (apply elem_of_cons in Hin as [Hin|Hin]; [discriminate Hin|]);
  by apply elem_of_nil in Hin.

Section DispatchMore.
Context `{Environment}.

(** The run of [show_topics], by the artifacts present. *)
Lemma show_topics_run cfg w :
  show_topics cfg w =
  match dictionary_file w with
  | None => (Raise LoadError, with_trace w [DictLoad])
  | Some d =>
    match model_file w with
    | None => (Raise LoadError, with_trace w [DictLoad; LdaLoad])
    | Some m =>
      (Ok tt,
       with_trace w
         ([DictLoad; LdaLoad; LdaShowTopics; Print MsgListOfTopics]
          ++ ((λ i, Print (MsgTopic i m))
                <$> seq 0 (min (LDA_COUNT_TOPICS cfg) (num_topics m)))))
    end
  end.
Proof.
  unfold show_topics. run. cbn [dictionary_file model_file with_trace].
  destruct (dictionary_file w) as [d|]; run; [|done].
  cbn [dictionary_file model_file with_trace].
  destruct (model_file w) as [m|]; run; rewrite !with_trace_app; done.
Qed.

(** X8: [--dict --train] in one invocation, when the vocabulary that the
    builder saves is not empty: the invocation ends normally, the trainer
    loads the vocabulary just built, and the model saved carries the inverse
    of its token → id mapping; the calls of the invocation are those of the
    builder followed by those of the trainer. *)
Theorem main_dict_then_train cfg args w d :
  arg_dict args = true →
  arg_train args = true →
  arg_topics args = false →
  arg_test args = false →
  dictionary_file (generate_dictionary cfg w).2 = Some d →
  0 < size (token2id d) →
  ∃ m,
    (main cfg args w).1 = Ok tt
    ∧ dictionary_file (main cfg args w).2 = Some d
    ∧ model_file (main cfg args w).2 = Some m
    ∧ (∀ i t, id2word m !! i = Some t ↔ token2id d !! t = Some i)
    ∧ events_of (main cfg args) w
      = events_of (generate_dictionary cfg) w
        ++ events_of (train_lda cfg) (generate_dictionary cfg w).2.
Proof.
  intros Hdict Htrain Htopics Htest Hd1 Hne.
  destruct (generate_dictionary_run cfg w)
    as (d' & ev1 & Hgen & _ & _ & _ & Hinj & _).
  assert (d' = d) as ->.
  { rewrite Hgen in Hd1. cbn [snd dictionary_file] in Hd1.
    by apply (inj Some) in Hd1. }
  clear Hd1.
  assert (Hmain : main cfg args w = train_lda cfg (generate_dictionary cfg w).2).
  { unfold main. rewrite Hdict, Htrain, Htopics, Htest. unfold when.
    cbn [negb andb]. unfold bind at 1. rewrite Hgen. cbn [snd].
    unfold bind. destruct (train_lda cfg _) as [[[]|x] w2]; reflexivity. }
  set (w1 := (generate_dictionary cfg w).2) in *.
  assert (Hd1 : dictionary_file w1 = Some d) by (unfold w1; by rewrite Hgen).
  destruct (train_lda_run cfg w1 d Hd1 Hne) as (e & m & ev2 & Hloop & Htr).
  apply train_loop_id2word in Hloop. cbn [initial_model id2word] in Hloop.
  exists m. rewrite Hmain, Htr. cbn [fst snd dictionary_file model_file].
  split; [done|]. split; [done|]. split; [done|]. split.
  - intros i t. rewrite Hloop. by apply build_id2word_lookup.
  - rewrite (events_of_trace (generate_dictionary cfg) w ev1) by by rewrite Hgen.
    assert (Ht1 : trace w1 = trace w ++ ev1) by (unfold w1; by rewrite Hgen).
    rewrite (events_of_trace (train_lda cfg) w1 _
               (f_equal trace (f_equal snd Htr))).
    apply events_of_trace. rewrite Hmain, Htr. cbn [snd trace].
    by rewrite Ht1, <- app_assoc.
Qed.

(** X9: [--test] without a usable [--sentence] (absent or empty), and no
    other operation asked for, fails with the missing-sentence error at once:
    nothing is printed, not even the usage hint, and nothing is loaded. *)
Theorem main_test_without_sentence cfg args w :
  arg_dict args = false →
  arg_train args = false →
  arg_topics args = false →
  arg_test args = true →
  arg_sentence args = None ∨ arg_sentence args = Some ""%string →
  main cfg args w = (Raise MissingSentence, w)
  ∧ events_of (main cfg args) w = [].
Proof.
  intros Hdict Htrain Htopics Htest Hs.
  assert (Hrun : main cfg args w = (Raise MissingSentence, w)).
  { unfold main. rewrite Hdict, Htrain, Htopics, Htest. unfold when.
    unfold bind, ret. rewrite test_lda_empty; [done|].
    destruct Hs as [->| ->]; [by left|right]. by exists ""%string. }
  split; [done|]. apply (events_of_with_trace _ _ (Raise MissingSentence)).
  by rewrite with_trace_nil.
Qed.

(** X10: an operation that fails ends the invocation.  With [--train] but
    no dictionary file (and no [--dict]), [main] fails with the load error of
    the trainer whatever else was asked for: [--topics] and [--test] are not
    run, the usage hint is not printed, and no file changes. *)
Theorem main_stops_at_first_error cfg args w :
  arg_dict args = false →
  arg_train args = true →
  dictionary_file w = None →
  main cfg args w
  = (Raise LoadError,
     with_trace w [Print MsgRule; Print MsgTrainingModel; Print MsgRule;
                   Print MsgLoadingDictionary; DictLoad])
  ∧ count_events is_model_call (events_of (main cfg args) w) = 0
  ∧ model_file (main cfg args w).2 = model_file w.
Proof.
  intros Hdict Htrain Hd.
  assert (Hrun : main cfg args w
    = (Raise LoadError,
       with_trace w [Print MsgRule; Print MsgTrainingModel; Print MsgRule;
                     Print MsgLoadingDictionary; DictLoad])).
  { unfold main. rewrite Hdict, Htrain. unfold when at 1 2.
    unfold bind at 1. unfold ret at 1. unfold bind at 1.
    by rewrite (train_lda_no_dictionary cfg w Hd). }
  split; [done|]. rewrite (events_of_with_trace _ _ _ _ Hrun), Hrun. done.
Qed.

(** X11: [show_topics] only reads.  Whatever the files, they are the same
    afterwards; it ends normally exactly when both artifacts exist; it loads
    the dictionary before the model; and when an artifact is missing it
    fails with the load error without printing anything or asking the model
    for topics. *)
Theorem show_topics_read_only cfg w :
  dictionary_file (show_topics cfg w).2 = dictionary_file w
  ∧ model_file (show_topics cfg w).2 = model_file w
  ∧ corpus (show_topics cfg w).2 = corpus w
  ∧ ((show_topics cfg w).1 = Ok tt
     ↔ is_Some (dictionary_file w) ∧ is_Some (model_file w))
  ∧ ((show_topics cfg w).1 ≠ Ok tt →
     (show_topics cfg w).1 = Raise LoadError
     ∧ count_events is_print (events_of (show_topics cfg) w) = 0
     ∧ (LdaShowTopics ∉ events_of (show_topics cfg) w)
     ∧ (dictionary_file w = None →
        events_of (show_topics cfg) w = [DictLoad])).
Proof.
  pose proof (show_topics_run cfg w) as Hrun.
  destruct (dictionary_file w) as [d|] eqn:Hd;
    [destruct (model_file w) as [m|] eqn:Hm|];
    rewrite (events_of_with_trace _ _ _ _ Hrun), Hrun;
    cbn [fst snd with_trace dictionary_file model_file corpus].
  - repeat split; try done; eauto.
  - repeat split; try done.
    + by intros [_ []%is_Some_None].
    + not_in_list.
  - repeat split; try done.
    + by intros [[]%is_Some_None _].
    + not_in_list.
Qed.

(** X12: [test_lda] only reads: for every sentence and whatever the outcome,
    the dictionary file, the model file and the corpus are the same
    afterwards. *)
Theorem test_lda_read_only cfg s w :
  dictionary_file (test_lda cfg s w).2 = dictionary_file w
  ∧ model_file (test_lda cfg s w).2 = model_file w
  ∧ corpus (test_lda cfg s w).2 = corpus w.
Proof.
  destruct s as [x|]; [|done].
  destruct (decide (1 ≤ String.length x)) as [Hlen|Hlen].
  - rewrite (test_lda_nonempty _ _ _ Hlen).
    destruct (decode x); [|done]. cbv zeta.
    destruct (dictionary_file w) eqn:Hd; [|by rewrite <- Hd].
    destruct (model_file w) eqn:Hm; cbn; by rewrite ?Hd, ?Hm.
  - rewrite test_lda_empty; [done|]. right. exists x. split; [done|lia].
Qed.

(** X13: when an artifact is missing, [test_lda] on a non-empty sentence
    that decodes still prints its token-size message if it applies, then
    fails with the load error: without the dictionary the model is not even
    loaded, and in both cases no bag of words is computed and the model is
    not queried. *)
Theorem test_lda_missing_artifact cfg s u w :
  1 ≤ String.length s →
  decode s = Some u →
  dictionary_file w = None ∨ model_file w = None →
  let warn := mismatch_events cfg (split SPACE (strip (lower u))) in
  (test_lda cfg (Some s) w).1 = Raise LoadError
  ∧ (dictionary_file w = None →
     events_of (test_lda cfg (Some s)) w = warn ++ [DictLoad])
  ∧ (is_Some (dictionary_file w) →
     events_of (test_lda cfg (Some s)) w = warn ++ [DictLoad; LdaLoad])
  ∧ (∀ doc, DictDoc2Bow doc ∉ events_of (test_lda cfg (Some s)) w)
  ∧ (∀ b, LdaInfer b ∉ events_of (test_lda cfg (Some s)) w).
Proof.
  intros Hlen Hu Hmiss warn.
  pose proof (test_lda_nonempty cfg s w Hlen) as Hrun.
  rewrite Hu in Hrun. cbv zeta in Hrun. fold warn in Hrun.
  assert (Hwarn : ∀ e, e ∈ warn → ∃ a b, e = Print (MsgTokenSizeMismatch a b)).
  { intros e. unfold warn, mismatch_events. case_bool_decide.
    - intros ->%list_elem_of_singleton. eauto.
    - by intros ?%elem_of_nil. }
  destruct (dictionary_file w) as [d|] eqn:Hd.
  - destruct (model_file w) as [m|] eqn:Hm; [by destruct Hmiss|].
    rewrite (events_of_with_trace _ _ _ _ Hrun), Hrun.
    split; [done|]. split; [done|]. split; [done|].
    split; intros x [(a & b & ?)%Hwarn|Hin]%elem_of_app; try done;
      revert Hin; not_in_list.
  - rewrite (events_of_with_trace _ _ _ _ Hrun), Hrun.
    split; [done|]. split; [done|]. split; [by intros []%is_Some_None|].
    split; intros x [(a & b & ?)%Hwarn|Hin]%elem_of_app; try done;
      revert Hin; not_in_list.
Qed.

(** X14: a non-empty sentence of ASCII characters always decodes, so with
    both artifacts in place [test_lda] ends normally on it, having queried
    the model once with the bag of words of its tokens. *)
Theorem test_lda_ascii_sentence cfg s d m w :
  1 ≤ String.length s →
  ascii_only s = true →
  dictionary_file w = Some d →
  model_file w = Some m →
  let toks := split SPACE (strip (lower (bytes_of s))) in
  let b := (doc2bow d toks false).2 in
  decode s = Some (bytes_of s)
  ∧ (test_lda cfg (Some s) w).1 = Ok tt
  ∧ events_of (test_lda cfg (Some s)) w
    = mismatch_events cfg toks
      ++ [DictLoad; LdaLoad; DictDoc2Bow toks; LdaInfer b;
          Print (MsgTopicsOfSentence m b)].
Proof.
  intros Hlen Hs Hd Hm toks b.
  assert (Hu : decode s = Some (bytes_of s)).
  { apply utf8_decode_ascii, Forall_forall. intros x Hx%list_elem_of_In.
    apply N.ltb_lt. revert x Hx. by apply forallb_forall. }
  pose proof (test_lda_nonempty cfg s w Hlen) as Hrun.
  rewrite Hu, Hd, Hm in Hrun. cbv zeta in Hrun. fold toks b in Hrun.
  by rewrite (events_of_with_trace _ _ _ _ Hrun), Hrun.
Qed.
End DispatchMore.


(** ** Splitting and bags of words *)

Lemma split_nonempty sep s : split sep s ≠ [].
Proof.
  destruct s as [|c s]; simpl; [done|].
  destruct (c =? sep)%N; [done|]. by destruct (split sep s).
Qed.

(** Joining the fields of a split with the separator gives the string
    back. *)
Lemma join_split sep s : join sep (split sep s) = s.
Proof.
  induction s as [|c s IH]; [done|]. simpl.
  destruct (N.eqb_spec c sep) as [->|Hne].
  - pose proof (split_nonempty sep s) as Hs.
    cbn [join]. destruct (split sep s) as [|w ws]; [done|].
    simpl. by rewrite <- IH.
  - pose proof (split_nonempty sep s) as Hs.
    destruct (split sep s) as [|w ws]; [done|].
    rewrite <- IH. cbn [join]. by destruct ws.
Qed.

Lemma split_no_sep sep s : Forall (λ w, sep ∉ w) (split sep s).
Proof.
  induction s as [|c s IH]; simpl.
  - repeat constructor. apply not_elem_of_nil.
  - destruct (N.eqb_spec c sep) as [->|Hne].
    + constructor; [apply not_elem_of_nil|done].
    + destruct (split sep s) as [|w ws].
      * repeat constructor. by intros ->%list_elem_of_singleton.
      * apply Forall_cons in IH as [Hw Hws]. constructor; [|done].
        intros [->|?]%elem_of_cons; done.
Qed.

Lemma length_split sep s :
  length (split sep s) = S (length (filter (λ c, c = sep) s)).
Proof.
  induction s as [|c s IH]; [done|]. simpl. rewrite filter_cons.
  destruct (N.eqb_spec c sep) as [->|Hne].
  - rewrite decide_True by done. simpl. by rewrite IH.
  - rewrite decide_False by done.
    pose proof (split_nonempty sep s) as Hs.
    destruct (split sep s) as [|w ws]; [done|]. by rewrite <- IH.
Qed.

Section BagOfWords.
Context `{Environment}.

(** X15: the tokens of an article are the fields between the single spaces
    of its lower-cased text: none contains a space, there is one more token
    than there are spaces (so two spaces in a row give an empty token), and
    joining them with spaces gives the text back. *)
Theorem tokenize_fields article :
  let text := lower (get_content_as_string article) in
  join SPACE (tokenize article) = text
  ∧ Forall (λ t, SPACE ∉ t) (tokenize article)
  ∧ length (tokenize article) = S (length (filter (λ c, c = SPACE) text)).
Proof.
  unfold tokenize. split; [apply join_split|].
  split; [apply split_no_sep|apply length_split].
Qed.

(** The [counter] of [doc2bow] counts the occurrences of each token. *)
Lemma count_tokens_lookup doc t :
  count_tokens doc !! t
  = if decide (t ∈ doc) then Some (occurrences t doc) else None.
Proof.
  unfold count_tokens, occurrences.
  assert (Hgen : ∀ c : gmap ustring nat,
    foldl (λ counter w, <[w := default 0 (counter !! w) + 1]> counter) c doc !! t
    = if decide (t ∈ doc)
      then Some (default 0 (c !! t) + length (filter (λ x, x = t) doc))
      else c !! t).
  { induction doc as [|x doc IH]; intros c.
    - by rewrite decide_False by apply not_elem_of_nil.
    - cbn [foldl]. rewrite IH.
      destruct (decide (x = t)) as [->|Hne].
      + rewrite filter_cons_True by done.
        rewrite (decide_True (P := t ∈ t :: doc)) by left.
        rewrite lookup_insert_eq. simpl.
        destruct (decide (t ∈ doc)) as [Hin|Hin]; f_equal; [lia|].
        assert (Hf : filter (λ x, x = t) doc = []).
        { clear -Hin. induction doc as [|y doc IH]; [done|].
          apply not_elem_of_cons in Hin as [Hy Hin].
          rewrite filter_cons_False by done. by apply IH. }
        rewrite Hf. simpl. lia.
      + rewrite filter_cons_False by done.
        rewrite lookup_insert_ne by done.
        destruct (decide (t ∈ doc)) as [Hin|Hin].
        * by rewrite (decide_True (P := t ∈ x :: doc)) by by right.
        * rewrite (decide_False (P := t ∈ x :: doc)); [done|].
          intros [?|?]%elem_of_cons; congruence. }
  rewrite Hgen, lookup_empty. by case_decide.
Qed.

(** What [doc2bow] returns for a document when it must not update the
    vocabulary, for a vocabulary with distinct ids: the vocabulary is
    unchanged, the vector holds exactly one pair (id, count) for each known
    token of the document, and the pairs are in ascending order of ids. *)
Lemma doc2bow_counts d doc :
  ids_injective (token2id d) →
  let b := (doc2bow d doc false).2 in
  (doc2bow d doc false).1 = d
  ∧ (∀ i c, (i, c) ∈ b
            ↔ ∃ t, token2id d !! t = Some i ∧ t ∈ doc ∧ c = occurrences t doc)
  ∧ Sorted key_le b
  ∧ NoDup b.*1.
Proof.
  intros Hinj b. unfold b, doc2bow. cbn [fst snd].
  set (result := py_dict (omap (λ wf, (λ i, (i, wf.2)) <$> token2id d !! wf.1)
                               (items (count_tokens doc)))).
  assert (Hres : ∀ i c, result !! i = Some c
            ↔ ∃ t, token2id d !! t = Some i ∧ t ∈ doc ∧ c = occurrences t doc).
  { assert (Hin : ∀ i c,
      (i, c) ∈ omap (λ wf : ustring * nat,
                       (λ i, (i, wf.2)) <$> token2id d !! wf.1)
                    (items (count_tokens doc))
      ↔ ∃ t, token2id d !! t = Some i ∧ t ∈ doc ∧ c = occurrences t doc).
    { intros i c. rewrite list_elem_of_omap. split.
      - intros ([t c'] & Hc%elem_of_items & Hf). simpl in Hf.
        destruct (token2id d !! t) as [j|] eqn:Hj; [|done].
        injection Hf as <- <-. exists t. split; [done|].
        rewrite count_tokens_lookup in Hc. case_decide; [|done].
        by injection Hc as <-.
      - intros (t & Ht & Hin & ->). exists (t, occurrences t doc).
        split.
        + apply elem_of_items. rewrite count_tokens_lookup.
          by rewrite decide_True.
        + simpl. by rewrite Ht. }
    intros i c. unfold result. rewrite py_dict_lookup; [apply Hin|].
    intros k c1 c2 (t1 & Ht1 & _ & ->)%Hin (t2 & Ht2 & _ & ->)%Hin.
    by rewrite (Hinj _ _ _ Ht1 Ht2). }
  split; [by destruct d|]. split; [|split].
  - intros i c. unfold sorted_items.
    rewrite merge_sort_Permutation, elem_of_items. apply Hres.
  - apply Sorted_merge_sort, _.
  - unfold sorted_items. rewrite merge_sort_Permutation. apply NoDup_keys.
Qed.

(** X16: the bag of words that [train_lda] computes for a window, for a
    vocabulary with distinct ids (as [generate_dictionary] saves): it holds
    exactly one pair (id, count) for each lower-cased word of the window
    that the vocabulary knows, the count being the number of times the word
    occurs in the window; words unknown to the vocabulary are dropped; and
    the pairs are in ascending order of ids, without repetition. *)
Theorem train_lda_window_bag d window :
  ids_injective (token2id d) →
  let words := (λ token, lower (word token)) <$> tokens window in
  (∀ i c, (i, c) ∈ window_bow d window
          ↔ ∃ t, token2id d !! t = Some i ∧ t ∈ words
                 ∧ c = occurrences t words)
  ∧ Sorted key_le (window_bow d window)
  ∧ NoDup (window_bow d window).*1.
Proof.
  intros Hinj words.
  destruct (doc2bow_counts d words Hinj) as (_ & Hin & Hsort & Hnd).
  done.
Qed.
End BagOfWords.

(** ** More on the two loops *)

Lemma length_concat_uniform {A} (n : nat) (l : list (list A)) :
  Forall (λ b, length b = n) l → length (concat l) = n * length l.
Proof.
  induction 1 as [|b l Hb _ IH]; simpl; [lia|].
  rewrite length_app, IH, Hb. lia.
Qed.

Lemma app_take_length {A} (l1 l2 l : list A) :
  l1 ++ l2 = l → l1 = take (length l - length l2) l.
Proof.
  intros <-. rewrite length_app.
  replace (length l1 + length l2 - length l2) with (length l1) by lia.
  by rewrite take_app_length.
Qed.

Lemma mod_succ_full N i : 1 ≤ N → i mod N + 1 = N → (i + 1) mod N = 0.
Proof.
  intros HN Hr. pose proof (Nat.div_mod_eq i N) as Hi.
  symmetry. apply (Nat.mod_unique _ _ (S (i / N))); lia.
Qed.

Lemma mod_succ_partial N i : i mod N + 1 < N → (i + 1) mod N = i mod N + 1.
Proof.
  intros Hr. pose proof (Nat.div_mod_eq i N) as Hi.
  symmetry. apply (Nat.mod_unique _ _ (i / N)); lia.
Qed.

Section LoopsMore.
Context `{Environment}.

(** The loop of [train_lda] started at index [i]: the windows taken from
    the stream, the calls of [doc2bow], and the message of the [break]. *)
Lemma train_loop_reads cfg d windows : ∀ i examples m e' m' ev,
  i ≤ COUNT_EXAMPLES_FOR_LDA cfg →
  train_loop cfg d i windows examples m = (e', m', ev) →
  let n := min (length windows) (S (COUNT_EXAMPLES_FOR_LDA cfg) - i) in
  count_events is_next_window ev = n
  ∧ count_events is_doc2bow ev = n
  ∧ count_events is_reached_max_windows ev
    = (if bool_decide (S (COUNT_EXAMPLES_FOR_LDA cfg) - i ≤ length windows)
       then 1 else 0).
Proof.
  induction windows as [|window windows IH];
    intros i examples m e' m' ev Hi Hrun; cbv zeta.
  - simpl in Hrun. injection Hrun as <- <- <-. simpl.
    rewrite bool_decide_eq_false_2 by lia. done.
  - cbn [train_loop] in Hrun. cbv zeta in Hrun.
    destruct (bool_decide (update_every_n_windows cfg ≤ _));
      cbv iota in Hrun; case_bool_decide as Hcap.
    1, 3: injection Hrun as <- <- <-;
      rewrite ?count_events_cons, ?count_events_app;
      cbn [count_events is_next_window is_doc2bow is_reached_max_windows
           length];
      rewrite bool_decide_eq_true_2 by lia; repeat split; lia.
    all: destruct (train_loop _ _ _ _ _ _) as [[e1 m1] ev1] eqn:Hrec;
      injection Hrun as <- <- <-;
      apply IH in Hrec as (Hw & Hb & Hmax); [|lia];
      rewrite ?count_events_cons, ?count_events_app;
      cbn [count_events is_next_window is_doc2bow is_reached_max_windows
           length];
      rewrite Hw, Hb, Hmax; repeat split; try lia;
      repeat case_bool_decide; lia.
Qed.

(** The "Updating" messages of the loop of [generate_dictionary] started
    at index [i] with a batch of [i mod update_every_n_articles] documents. *)
Lemma dictionary_loop_messages cfg articles :
  1 ≤ update_every_n_articles cfg →
  ∀ i articles_str d a' d' ev,
    length articles_str = i mod update_every_n_articles cfg →
    dictionary_loop cfg i articles articles_str d = (a', d', ev) →
    ∀ j c, Print (MsgUpdatingAtArticle j c) ∈ ev →
      c = COUNT_EXAMPLES_FOR_DICTIONARY cfg
      ∧ (j + 1) mod update_every_n_articles cfg = 0
      ∧ i ≤ j < i + length articles
      ∧ (i ≤ S (COUNT_EXAMPLES_FOR_DICTIONARY cfg) →
         j ≤ S (COUNT_EXAMPLES_FOR_DICTIONARY cfg)).
Proof.
  intros HN. induction articles as [|article articles IH];
    intros i articles_str d a' d' ev Hlen Hrun j c Hin.
  - simpl in Hrun. injection Hrun as <- <- <-. by apply elem_of_nil in Hin.
  - cbn [dictionary_loop] in Hrun. cbv zeta in Hrun.
    set (batch := articles_str ++ [tokenize article]) in Hrun.
    assert (Hb : length batch = i mod update_every_n_articles cfg + 1)
      by (unfold batch; rewrite length_app; simpl; lia).
    clearbody batch.
    pose proof (Nat.mod_upper_bound i (update_every_n_articles cfg)) as Hup.
    destruct (decide (update_every_n_articles cfg ≤ length batch)) as [Hfl|Hfl].
    + rewrite (bool_decide_eq_true_2 _ Hfl) in Hrun. cbv iota in Hrun.
      assert (Hfull : (i + 1) mod update_every_n_articles cfg = 0)
        by (apply mod_succ_full; lia).
      case_bool_decide as Hcap.
      * injection Hrun as <- <- <-.
        apply elem_of_cons in Hin as [Hin|Hin]; [discriminate Hin|].
        apply elem_of_cons in Hin as [Hin|Hin].
        { injection Hin as -> ->. simpl. repeat split; try done; lia. }
        apply elem_of_cons in Hin as [Hin|Hin]; [discriminate Hin|].
        apply elem_of_cons in Hin as [Hin|Hin]; [discriminate Hin|].
        by apply elem_of_nil in Hin.
      * destruct (dictionary_loop _ _ _ _ _) as [[a1 d1] ev1] eqn:Hrec.
        injection Hrun as <- <- <-.
        apply elem_of_cons in Hin as [Hin|Hin]; [discriminate Hin|].
        apply elem_of_cons in Hin as [Hin|Hin].
        { injection Hin as -> ->. simpl. repeat split; try done; lia. }
        apply elem_of_cons in Hin as [Hin|Hin]; [discriminate Hin|].
        eapply IH in Hrec as (Hc & Hm & Hj & Hle); [| |exact Hin].
        -- simpl. repeat split; try done; lia.
        -- simpl. replace (S i) with (i + 1) by lia. by rewrite Hfull.
    + rewrite (bool_decide_eq_false_2 _ Hfl) in Hrun. cbv iota in Hrun.
      case_bool_decide as Hcap.
      * injection Hrun as <- <- <-.
        apply elem_of_cons in Hin as [Hin|Hin]; [discriminate Hin|].
        apply elem_of_cons in Hin as [Hin|Hin]; [discriminate Hin|].
        by apply elem_of_nil in Hin.
      * destruct (dictionary_loop _ _ _ _ _) as [[a1 d1] ev1] eqn:Hrec.
        injection Hrun as <- <- <-.
        apply elem_of_cons in Hin as [Hin|Hin]; [discriminate Hin|].
        eapply IH in Hrec as (Hc & Hm & Hj & Hle); [| |exact Hin].
        -- simpl. repeat split; try done; lia.
        -- replace (S i) with (i + 1) by lia.
           rewrite mod_succ_partial by lia. lia.
Qed.

(** X17: with a non-empty vocabulary on file, [train_lda] takes [min W (cap + 1)] windows
    from the stream, [W] being the number of windows and [cap] being
    [COUNT_EXAMPLES_FOR_LDA]: the window of index [cap] is still processed
    before the [break].  [doc2bow] is called once for each window taken, and
    the "Reached max" message is printed once if the stream has more than
    [cap] windows, and not at all otherwise. *)
Theorem train_lda_windows_read cfg w d :
  dictionary_file w = Some d →
  0 < size (token2id d) →
  let W := length (load_windows (corpus w) (LDA_WINDOW_SIZE cfg) true) in
  let ev := events_of (train_lda cfg) w in
  count_events is_next_window ev = min W (S (COUNT_EXAMPLES_FOR_LDA cfg))
  ∧ count_events is_doc2bow ev = min W (S (COUNT_EXAMPLES_FOR_LDA cfg))
  ∧ count_events is_reached_max_windows ev
    = (if bool_decide (COUNT_EXAMPLES_FOR_LDA cfg < W) then 1 else 0).
Proof.
  intros Hd Hne W ev.
  destruct (train_lda_run cfg w d Hd Hne) as (e & m & ev' & Hloop & Hrun).
  apply train_loop_reads in Hloop as (Hw & Hb & Hmax); [|lia].
  rewrite Nat.sub_0_r in Hw, Hb, Hmax. fold W in Hw, Hb, Hmax.
  unfold ev.
  rewrite (events_of_trace _ _ _ (f_equal trace (f_equal snd Hrun))).
  unfold train_prologue. rewrite !count_events_app, Hw, Hb, Hmax.
  cbn [count_events is_next_window is_doc2bow is_reached_max_windows].
  repeat split; try lia. repeat case_bool_decide; lia.
Qed.

(** X18: [train_lda] never trains on a partial batch.  With a non-empty
    vocabulary on file, a flush threshold [N] of at least 1 and
    [n = min W (cap + 1)] windows taken, the
    bags of words given to [lda_model.update] are those of the first
    [n - n mod N] windows of the stream: the last [n mod N] windows taken
    are converted but never reach the model. *)
Theorem train_lda_drops_remainder cfg w d :
  dictionary_file w = Some d →
  0 < size (token2id d) →
  1 ≤ update_every_n_windows cfg →
  let windows := load_windows (corpus w) (LDA_WINDOW_SIZE cfg) true in
  let n := min (length windows) (S (COUNT_EXAMPLES_FOR_LDA cfg)) in
  concat (update_batches (events_of (train_lda cfg) w))
  = window_bow d <$> take (n - n mod update_every_n_windows cfg) windows.
Proof.
  intros Hd Hne HN windows n.
  destruct (train_lda_run cfg w d Hd Hne) as (e & m & ev & Hloop & Hrun).
  fold windows in Hloop.
  rewrite (events_of_trace _ _ _ (f_equal trace (f_equal snd Hrun))).
  rewrite !update_batches_app. unfold update_batches at 1 3. simpl.
  rewrite app_nil_r.
  pose proof Hloop as (_ & He & _)%train_loop_spec; [|done|simpl; lia|lia].
  rewrite Nat.sub_0_r in He. cbn [length Nat.add] in He. fold n in He.
  apply train_loop_order in Hloop; [|lia].
  rewrite Nat.sub_0_r in Hloop. cbn [app] in Hloop.
  apply app_take_length in Hloop. rewrite Hloop, He.
  rewrite length_fmap, length_take, <- fmap_take, take_take.
  f_equal. f_equal. unfold n. lia.
Qed.

(** X19: [train_lda] followed by [show_topics] with the same configuration
    ends normally when a non-empty vocabulary is on file: [show_topics]
    loads the model just saved and prints the headline followed by exactly
    [LDA_COUNT_TOPICS] topic lines, numbered from 0. *)
Theorem train_then_show_topics cfg w d :
  dictionary_file w = Some d →
  0 < size (token2id d) →
  ∃ m,
    model_file (train_lda cfg w).2 = Some m
    ∧ ((train_lda cfg ;; show_topics cfg) w).1 = Ok tt
    ∧ events_of (show_topics cfg) (train_lda cfg w).2
      = [DictLoad; LdaLoad; LdaShowTopics; Print MsgListOfTopics]
        ++ ((λ i, Print (MsgTopic i m)) <$> seq 0 (LDA_COUNT_TOPICS cfg)).
Proof.
  intros Hd Hne.
  destruct (train_lda_run cfg w d Hd Hne) as (e & m & ev & Hloop & Hrun).
  apply train_loop_configuration in Hloop as (Ht & _ & _).
  cbn [initial_model num_topics] in Ht.
  exists m.
  assert (Hbind : (train_lda cfg ;; show_topics cfg) w
                  = show_topics cfg (train_lda cfg w).2).
  { unfold bind at 1.
    destruct (train_lda cfg w) as [[[]|x] w2] eqn:Htr; [done|].
    rewrite Hrun in Htr. discriminate. }
  assert (Hd1 : dictionary_file (train_lda cfg w).2 = Some d)
    by by rewrite Hrun.
  assert (Hm1 : model_file (train_lda cfg w).2 = Some m) by by rewrite Hrun.
  pose proof (show_topics_run cfg (train_lda cfg w).2) as Hshow.
  rewrite Hd1, Hm1, Ht, Nat.min_id in Hshow.
  by rewrite Hbind, (events_of_with_trace _ _ _ _ Hshow), Hshow.
Qed.

(** X20: with a flush threshold [N] of at least 1, every message
    "Updating (at article j of max c)" of [generate_dictionary] has
    [c = COUNT_EXAMPLES_FOR_DICTIONARY] and names the zero-based index of the
    article that filled the batch: [j + 1] is a multiple of [N], [j] is an
    index of the corpus, and [j] is at most [c + 1] (so the message can name
    an article beyond the stated maximum). *)
Theorem generate_dictionary_update_messages cfg w j c :
  1 ≤ update_every_n_articles cfg →
  Print (MsgUpdatingAtArticle j c) ∈ events_of (generate_dictionary cfg) w →
  c = COUNT_EXAMPLES_FOR_DICTIONARY cfg
  ∧ (j + 1) mod update_every_n_articles cfg = 0
  ∧ j < length (corpus w)
  ∧ j ≤ COUNT_EXAMPLES_FOR_DICTIONARY cfg + 1.
Proof.
  intros HN Hin.
  destruct (generate_dictionary_trace cfg w)
    as (rest & d' & ev & d0 & d1 & d2 & Hloop & _ & _ & _ & Hrun).
  rewrite (events_of_trace _ _ _ (f_equal trace (f_equal snd Hrun))) in Hin.
  assert (Hev : Print (MsgUpdatingAtArticle j c) ∈ ev).
  { apply elem_of_app in Hin as [Hin|Hin]; [revert Hin; not_in_list|].
    apply elem_of_app in Hin as [Hin|Hin]; [done|].
    unfold dictionary_epilogue in Hin.
    apply elem_of_app in Hin as [Hin|Hin]; [|revert Hin; not_in_list].
    case_bool_decide; revert Hin; not_in_list. }
  eapply dictionary_loop_messages in Hloop as (Hc & Hm & Hj & Hle);
    [|done|by rewrite Nat.Div0.mod_0_l|exact Hev].
  repeat split; try done; lia.
Qed.

(** X21: every token of the vocabulary that [generate_dictionary] saves is
    a field of the lower-cased text of one of the first
    [COUNT_EXAMPLES_FOR_DICTIONARY + 2] articles of the corpus, and contains
    no space. *)
Theorem generate_dictionary_tokens cfg w :
  ∃ d,
    dictionary_file (generate_dictionary cfg w).2 = Some d
    ∧ ∀ t, is_Some (token2id d !! t) →
        (SPACE ∉ t)
        ∧ ∃ article,
            article ∈ take (COUNT_EXAMPLES_FOR_DICTIONARY cfg + 2) (corpus w)
            ∧ t ∈ split SPACE (lower (get_content_as_string article)).
Proof.
  destruct (generate_dictionary_run cfg w)
    as (d & ev & Hrun & _ & _ & _ & _ & _ & _ & Hdom & _).
  exists d. rewrite Hrun. split; [done|]. intros t [Hpos _]%Hdom.
  unfold doc_freq in Hpos.
  destruct (filter _ _) as [|doc l] eqn:Hf; [simpl in Hpos; lia|].
  assert (Hdoc : doc ∈ filter (λ doc, t ∈ doc)
                   (tokenize <$> take (S (S (COUNT_EXAMPLES_FOR_DICTIONARY cfg)))
                                      (corpus w)))
    by (rewrite Hf; left).
  apply list_elem_of_filter in Hdoc as [Ht Hdoc].
  apply list_elem_of_fmap in Hdoc as (article & -> & Ha).
  split.
  - pose proof (split_no_sep SPACE (lower (get_content_as_string article)))
      as Hall.
    rewrite Forall_forall in Hall. by apply Hall.
  - exists article. split; [|done].
    by replace (COUNT_EXAMPLES_FOR_DICTIONARY cfg + 2)
      with (S (S (COUNT_EXAMPLES_FOR_DICTIONARY cfg))) by lia.
Qed.
End LoopsMore.

(** * The claims on concrete inputs *)

Lemma built_world_dictionary :
  dictionary_file built_world = Some sample_dictionary.
Proof. vm_compute. reflexivity. Qed.

Lemma trained_world_dictionary :
  dictionary_file trained_world = Some sample_dictionary.
Proof. vm_compute. reflexivity. Qed.

Lemma trained_world_model : model_file trained_world = Some sample_model.
Proof. vm_compute. reflexivity. Qed.

Lemma sample_dictionary_injective : ids_injective (token2id sample_dictionary).
Proof.
  destruct (generate_dictionary_run (small_config 3) sample_world)
    as (d & ev & Hrun & _ & _ & _ & Hinj & _).
  assert (Hd : dictionary_file built_world = Some d)
    by (unfold built_world; by rewrite Hrun).
  rewrite built_world_dictionary in Hd. apply (inj Some) in Hd.
  by rewrite Hd.
Qed.

Lemma sample_dictionary_nonempty : 0 < size (token2id sample_dictionary).
Proof. vm_compute. lia. Qed.

(** With cap 5 and threshold 2, the four windows of the sample corpus give
    two updates. *)
Lemma train_lda_update_calls_witness :
  dictionary_file built_world = Some sample_dictionary
  ∧ 0 < size (token2id sample_dictionary)
  ∧ 1 ≤ update_every_n_windows (small_config 5)
  ∧ length (load_windows (corpus built_world)
                         (LDA_WINDOW_SIZE (small_config 5)) true)
    ≤ COUNT_EXAMPLES_FOR_LDA (small_config 5)
  ∧ ∃ ev m,
      (train_lda (small_config 5) built_world).1 = Ok tt
      ∧ model_file (train_lda (small_config 5) built_world).2 = Some m
      ∧ events_of (train_lda (small_config 5)) built_world
        = ev ++ [Print MsgSaving; LdaSave m]
      ∧ length (update_batches ev) = 2
      ∧ length (update_batches
                  (events_of (train_lda (small_config 5)) built_world)) = 2
      ∧ length (updates m) = 2.
Proof.
  split; [exact built_world_dictionary|].
  split; [exact sample_dictionary_nonempty|]. split; [simpl; lia|].
  split; [vm_compute; lia|].
  exact (train_lda_update_calls (small_config 5) built_world sample_dictionary
           built_world_dictionary sample_dictionary_nonempty
           ltac:(simpl; lia) ltac:(vm_compute; lia)).
Defined.

(** The four windows of the sample corpus, its vocabulary (which is not
    empty) and lda.py's threshold of 25000: ⌈4 / 25000⌉ = 1, but the run
    ends normally without any update. *)
Lemma train_lda_four_windows_no_update :
  let W := length (load_windows (corpus built_world)
                                (LDA_WINDOW_SIZE (lda_py 11)) true) in
  W = 4
  ∧ dictionary_file built_world = Some sample_dictionary
  ∧ 0 < size (token2id sample_dictionary)
  ∧ (train_lda (lda_py 11) built_world).1 = Ok tt
  ∧ length (update_batches (events_of (train_lda (lda_py 11)) built_world))
    = 0
  ∧ ceil_div W (update_every_n_windows (lda_py 11)) = 1
  ∧ length (update_batches (events_of (train_lda (lda_py 11)) built_world))
    ≠ ceil_div W (update_every_n_windows (lda_py 11)).
Proof.
  cbv zeta. split; [vm_compute; reflexivity|].
  split; [exact built_world_dictionary|].
  split; [exact sample_dictionary_nonempty|].
  vm_compute. repeat split; try reflexivity. discriminate.
Qed.

Lemma train_lda_full_batches_witness :
  1 ≤ update_every_n_windows (lda_py 11)
  ∧ Forall (λ batch, length batch = update_every_n_windows (lda_py 11))
           (update_batches (events_of (train_lda (lda_py 11)) built_world)).
Proof.
  split; [simpl; lia|].
  exact (train_lda_full_batches (lda_py 11) built_world ltac:(simpl; lia)).
Defined.

Lemma train_lda_id2word_inverse_witness :
  dictionary_file built_world = Some sample_dictionary
  ∧ ids_injective (token2id sample_dictionary)
  ∧ 0 < size (token2id sample_dictionary)
  ∧ ∃ id2w,
      LdaInit (LDA_COUNT_TOPICS (small_config 3))
              (LDA_COUNT_WORKERS (small_config 3))
              (LDA_CHUNK_SIZE (small_config 3)) id2w
        ∈ events_of (train_lda (small_config 3)) built_world
      ∧ (∀ t i, token2id sample_dictionary !! t = Some i →
                id2w !! i = Some t)
      ∧ (∀ i t, id2w !! i = Some t →
                token2id sample_dictionary !! t = Some i)
      ∧ ∃ m, model_file (train_lda (small_config 3) built_world).2 = Some m
             ∧ id2word m = id2w.
Proof.
  split; [exact built_world_dictionary|].
  split; [exact sample_dictionary_injective|].
  split; [exact sample_dictionary_nonempty|].
  destruct (train_lda_id2word_inverse (small_config 3) built_world
              sample_dictionary built_world_dictionary
              sample_dictionary_injective)
    as (id2w & Hinit & Hinv1 & Hinv2 & Hsaved).
  exists id2w. split; [exact Hinit|]. split; [exact Hinv1|].
  split; [exact Hinv2|]. exact (Hsaved sample_dictionary_nonempty).
Defined.

(** C2 (on a failing input): with lda.py's cap C = 100000, a corpus of
    100002 articles is read to its end by [generate_dictionary]: 100002
    articles are tokenized and accumulated, one more than the C + 1 of the
    claim, because the test [i > C] only holds at the article of index
    C + 1. *)
Lemma generate_dictionary_reads_cap_plus_two :
  count_events is_next_article
    (events_of (generate_dictionary (lda_py 11)) large_world)
  = N.to_nat 100002
  ∧ ¬ (count_events is_next_article
         (events_of (generate_dictionary (lda_py 11)) large_world)
       ≤ COUNT_EXAMPLES_FOR_DICTIONARY (lda_py 11) + 1).
Proof.
  pose proof (articles_read_count (lda_py 11) large_world) as Hc.
  change (length (corpus large_world))
    with (length (replicate (N.to_nat 100002) (article_of "a b c"))) in Hc.
  rewrite length_replicate in Hc.
  change (COUNT_EXAMPLES_FOR_DICTIONARY (lda_py 11)) with (N.to_nat 100000) in *.
  set (c := count_events _ _) in *. clearbody c. lia.
Qed.

(** C6 (on a failing input): the sentence 0xFF is not empty and both
    artifacts are in place, yet [test_lda] neither loads them nor prints
    anything: decoding fails first. *)
Lemma test_lda_undecodable_sentence_stops :
  1 ≤ String.length undecodable_sentence
  ∧ dictionary_file trained_world = Some sample_dictionary
  ∧ model_file trained_world = Some sample_model
  ∧ decode undecodable_sentence = None
  ∧ test_lda (lda_py 11) (Some undecodable_sentence) trained_world
    = (Raise UnicodeDecodeError, trained_world)
  ∧ events_of (test_lda (lda_py 11) (Some undecodable_sentence)) trained_world
    = []
  ∧ ¬ ∃ warn toks b m,
        test_lda (lda_py 11) (Some undecodable_sentence) trained_world
        = (Ok tt,
           with_trace trained_world
             (warn ++ [DictLoad; LdaLoad; DictDoc2Bow toks; LdaInfer b;
                       Print (MsgTopicsOfSentence m b)])).
Proof.
  assert (Hlen : 1 ≤ String.length undecodable_sentence) by (simpl; lia).
  assert (Hu : decode undecodable_sentence = None) by (vm_compute; reflexivity).
  pose proof (test_lda_nonempty (lda_py 11) undecodable_sentence trained_world
                Hlen) as Hrun.
  rewrite Hu in Hrun.
  split; [exact Hlen|]. split; [exact trained_world_dictionary|].
  split; [exact trained_world_model|]. split; [exact Hu|].
  split; [exact Hrun|]. split.
  - apply (events_of_with_trace _ _ (Raise UnicodeDecodeError)).
    by rewrite with_trace_nil.
  - intros (warn & toks & b & m & Hok). rewrite Hrun in Hok. discriminate.
Qed.

(** The sentence 0xFF is neither absent nor empty, and [test_lda] raises
    on it. *)
Lemma test_lda_undecodable_sentence_raises :
  String.length undecodable_sentence = 1
  ∧ (test_lda (lda_py 11) (Some undecodable_sentence) trained_world).1
    = Raise UnicodeDecodeError
  ∧ raises (test_lda (lda_py 11) (Some undecodable_sentence) trained_world).1
  ∧ ¬ (Some undecodable_sentence = None
       ∨ ∃ x, Some undecodable_sentence = Some x ∧ String.length x = 0)
  ∧ ¬ (raises (test_lda (lda_py 11) (Some undecodable_sentence)
                        trained_world).1
       ↔ (Some undecodable_sentence = None
          ∨ ∃ x, Some undecodable_sentence = Some x ∧ String.length x = 0)).
Proof.
  assert (Hno : ¬ (Some undecodable_sentence = None
       ∨ ∃ x, Some undecodable_sentence = Some x ∧ String.length x = 0)).
  { intros [?|(x & [= <-] & Hx)]; [done|]. vm_compute in Hx. discriminate. }
  assert (Hr : (test_lda (lda_py 11) (Some undecodable_sentence)
                         trained_world).1 = Raise UnicodeDecodeError)
    by (vm_compute; reflexivity).
  split; [reflexivity|]. split; [done|].
  split; [by eexists|]. split; [done|].
  intros [Hiff _]. apply Hno, Hiff. by eexists.
Qed.

Lemma test_lda_missing_sentence_witness :
  (((test_lda (small_config 3) (Some ""%string) trained_world).1
    = Raise MissingSentence)
   ↔ (Some ""%string = None
      ∨ ∃ x, Some ""%string = Some x ∧ String.length x = 0))
  ∧ ((test_lda (small_config 3) (Some ""%string) trained_world).1
     = Raise MissingSentence →
     (test_lda (small_config 3) (Some ""%string) trained_world).2
     = trained_world
     ∧ events_of (test_lda (small_config 3) (Some ""%string)) trained_world
       = []).
Proof.
  exact (test_lda_missing_sentence (small_config 3) (Some ""%string)
                                   trained_world).
Defined.

(** "b c d" has three tokens, the window size of the small configuration:
    no message; the bag of words is that of the tokens b, c and d. *)
Lemma test_lda_length_mismatch_witness :
  1 ≤ String.length "b c d"
  ∧ decode "b c d" = Some (bytes_of "b c d")
  ∧ dictionary_file trained_world = Some sample_dictionary
  ∧ model_file trained_world = Some sample_model
  ∧ let toks := split SPACE (strip (lower (bytes_of "b c d"))) in
    let b := (doc2bow sample_dictionary toks false).2 in
    ∃ warn,
      test_lda (small_config 3) (Some "b c d"%string) trained_world
      = (Ok tt, with_trace trained_world
                  (warn ++ [DictLoad; LdaLoad; DictDoc2Bow toks; LdaInfer b;
                            Print (MsgTopicsOfSentence sample_model b)]))
      ∧ warn = (if bool_decide (length toks ≠ LDA_WINDOW_SIZE (small_config 3))
                then [Print (MsgTokenSizeMismatch
                               (length toks) (LDA_WINDOW_SIZE (small_config 3)))]
                else [])
      ∧ (count_events is_mismatch_message
           (events_of (test_lda (small_config 3) (Some "b c d"%string))
                      trained_world) = 1
         ↔ length toks ≠ LDA_WINDOW_SIZE (small_config 3))
      ∧ (count_events is_mismatch_message
           (events_of (test_lda (small_config 3) (Some "b c d"%string))
                      trained_world) = 0
         ↔ length toks = LDA_WINDOW_SIZE (small_config 3)).
Proof.
  split; [simpl; lia|]. split; [reflexivity|].
  split; [exact trained_world_dictionary|].
  split; [exact trained_world_model|].
  exact (test_lda_length_mismatch (small_config 3) "b c d" (bytes_of "b c d")
           sample_dictionary sample_model trained_world
           ltac:(simpl; lia) eq_refl
           trained_world_dictionary trained_world_model).
Defined.

Lemma main_no_option_witness :
  arg_dict no_flags = false
  ∧ arg_train no_flags = false
  ∧ arg_topics no_flags = false
  ∧ arg_test no_flags = false
  ∧ main (lda_py 11) no_flags sample_world
    = (Ok tt, with_trace sample_world [Print MsgNoOptionChosen])
  ∧ events_of (main (lda_py 11) no_flags) sample_world
    = [Print MsgNoOptionChosen]
  ∧ dictionary_file (main (lda_py 11) no_flags sample_world).2
    = dictionary_file sample_world
  ∧ model_file (main (lda_py 11) no_flags sample_world).2
    = model_file sample_world.
Proof.
  do 4 (split; [reflexivity|]).
  exact (main_no_option (lda_py 11) no_flags sample_world
           eq_refl eq_refl eq_refl eq_refl).
Defined.

(** Two spaces: the token list is [[""]], which is not in the sample
    vocabulary, so the model is queried with the empty vector. *)
Lemma test_lda_whitespace_sentence_witness :
  1 ≤ String.length "  "
  ∧ whitespace_only "  " = true
  ∧ dictionary_file trained_world = Some sample_dictionary
  ∧ model_file trained_world = Some sample_model
  ∧ ∃ u b,
      decode "  " = Some u
      ∧ split SPACE (strip (lower u)) = [[]]
      ∧ b = match token2id sample_dictionary !! [] with
            | Some i => [(i, 1)]
            | None => []
            end
      ∧ (token2id sample_dictionary !! [] = None → b = [])
      ∧ test_lda (small_config 3) (Some "  "%string) trained_world
        = (Ok tt, with_trace trained_world
                    (mismatch_events (small_config 3) [[]]
                     ++ [DictLoad; LdaLoad; DictDoc2Bow [[]]; LdaInfer b;
                         Print (MsgTopicsOfSentence sample_model b)])).
Proof.
  split; [simpl; lia|]. split; [reflexivity|].
  split; [exact trained_world_dictionary|].
  split; [exact trained_world_model|].
  exact (test_lda_whitespace_sentence (small_config 3) "  "
           sample_dictionary sample_model trained_world
           ltac:(simpl; lia) eq_refl
           trained_world_dictionary trained_world_model).
Defined.

(** * The further properties on concrete inputs *)

Lemma train_lda_missing_dictionary_witness :
  dictionary_file sample_world = None
  ∧ (train_lda (small_config 3) sample_world).1 = Raise LoadError.
Proof.
  split; [reflexivity|].
  exact (proj1 (train_lda_missing_dictionary (small_config 3) sample_world
                  eq_refl)).
Defined.

Lemma train_lda_feeds_in_stream_order_witness :
  dictionary_file built_world = Some sample_dictionary
  ∧ 0 < size (token2id sample_dictionary)
  ∧ concat (update_batches (events_of (train_lda (small_config 3)) built_world))
    `prefix_of`
    (window_bow sample_dictionary
       <$> load_windows (corpus built_world)
                        (LDA_WINDOW_SIZE (small_config 3)) true).
Proof.
  split; [exact built_world_dictionary|].
  split; [exact sample_dictionary_nonempty|].
  exact (proj1 (train_lda_feeds_in_stream_order (small_config 3) built_world
                  sample_dictionary built_world_dictionary
           sample_dictionary_nonempty)).
Defined.

Lemma train_lda_saves_configured_model_witness :
  dictionary_file built_world = Some sample_dictionary
  ∧ 0 < size (token2id sample_dictionary)
  ∧ ∃ m,
      (train_lda (small_config 3) built_world).1 = Ok tt
      ∧ model_file (train_lda (small_config 3) built_world).2 = Some m
      ∧ last (events_of (train_lda (small_config 3)) built_world)
        = Some (LdaSave m)
      ∧ num_topics m = LDA_COUNT_TOPICS (small_config 3)
      ∧ workers m = LDA_COUNT_WORKERS (small_config 3)
      ∧ chunksize m = LDA_CHUNK_SIZE (small_config 3)
      ∧ dictionary_file (train_lda (small_config 3) built_world).2
        = Some sample_dictionary
      ∧ corpus (train_lda (small_config 3) built_world).2 = corpus built_world.
Proof.
  split; [exact built_world_dictionary|].
  split; [exact sample_dictionary_nonempty|].
  exact (train_lda_saves_configured_model (small_config 3) built_world
           sample_dictionary built_world_dictionary
           sample_dictionary_nonempty).
Defined.

Lemma generate_dictionary_batch_sizes_witness :
  1 ≤ update_every_n_articles (small_config 3)
  ∧ Forall (λ b, 0 < length b ≤ update_every_n_articles (small_config 3))
           (added_batches
              (events_of (generate_dictionary (small_config 3)) sample_world)).
Proof.
  split; [simpl; lia|].
  exact (proj1 (generate_dictionary_batch_sizes (small_config 3) sample_world
                  ltac:(simpl; lia))).
Defined.

Lemma generate_dictionary_ignores_old_artifacts_witness :
  corpus sample_world = corpus trained_world
  ∧ dictionary_file (generate_dictionary (small_config 3) sample_world).2
    = dictionary_file (generate_dictionary (small_config 3) trained_world).2.
Proof.
  assert (Hc : corpus sample_world = corpus trained_world)
    by (vm_compute; reflexivity).
  split; [exact Hc|].
  exact (proj1 (generate_dictionary_ignores_old_artifacts (small_config 3)
                  sample_world trained_world Hc)).
Defined.

Lemma main_dict_then_train_witness :
  arg_dict dict_train_flags = true
  ∧ arg_train dict_train_flags = true
  ∧ arg_topics dict_train_flags = false
  ∧ arg_test dict_train_flags = false
  ∧ dictionary_file (generate_dictionary (small_config 3) sample_world).2
    = Some sample_dictionary
  ∧ 0 < size (token2id sample_dictionary)
  ∧ ∃ m,
      (main (small_config 3) dict_train_flags sample_world).1 = Ok tt
      ∧ dictionary_file (main (small_config 3) dict_train_flags sample_world).2
        = Some sample_dictionary
      ∧ model_file (main (small_config 3) dict_train_flags sample_world).2
        = Some m
      ∧ (∀ i t, id2word m !! i = Some t
                ↔ token2id sample_dictionary !! t = Some i)
      ∧ events_of (main (small_config 3) dict_train_flags) sample_world
        = events_of (generate_dictionary (small_config 3)) sample_world
          ++ events_of (train_lda (small_config 3))
                       (generate_dictionary (small_config 3) sample_world).2.
Proof.
  do 4 (split; [reflexivity|]). split; [exact built_world_dictionary|].
  split; [exact sample_dictionary_nonempty|].
  exact (main_dict_then_train (small_config 3) dict_train_flags sample_world
           sample_dictionary eq_refl eq_refl eq_refl eq_refl
           built_world_dictionary sample_dictionary_nonempty).
Defined.

Lemma main_test_without_sentence_witness :
  arg_dict test_flag_only = false
  ∧ arg_train test_flag_only = false
  ∧ arg_topics test_flag_only = false
  ∧ arg_test test_flag_only = true
  ∧ (arg_sentence test_flag_only = None
     ∨ arg_sentence test_flag_only = Some ""%string)
  ∧ main (small_config 3) test_flag_only trained_world
    = (Raise MissingSentence, trained_world).
Proof.
  do 4 (split; [reflexivity|]). split; [by left|].
  exact (proj1 (main_test_without_sentence (small_config 3) test_flag_only
                  trained_world eq_refl eq_refl eq_refl eq_refl
                  (or_introl eq_refl))).
Defined.

Lemma main_stops_at_first_error_witness :
  arg_dict train_topics_test_flags = false
  ∧ arg_train train_topics_test_flags = true
  ∧ dictionary_file sample_world = None
  ∧ count_events is_model_call
      (events_of (main (small_config 3) train_topics_test_flags) sample_world)
    = 0.
Proof.
  do 3 (split; [reflexivity|]).
  exact (proj1 (proj2 (main_stops_at_first_error (small_config 3)
                         train_topics_test_flags sample_world
                         eq_refl eq_refl eq_refl))).
Defined.

Lemma test_lda_missing_artifact_witness :
  1 ≤ String.length "a b c"
  ∧ decode "a b c" = Some (bytes_of "a b c")
  ∧ (dictionary_file built_world = None ∨ model_file built_world = None)
  ∧ (test_lda (small_config 3) (Some "a b c"%string) built_world).1
    = Raise LoadError.
Proof.
  assert (Hlen : 1 ≤ String.length "a b c") by (simpl; lia).
  assert (Hu : decode "a b c" = Some (bytes_of "a b c"))
    by (vm_compute; reflexivity).
  assert (Hm : model_file built_world = None) by (vm_compute; reflexivity).
  split; [exact Hlen|]. split; [exact Hu|]. split; [right; exact Hm|].
  exact (proj1 (test_lda_missing_artifact (small_config 3) "a b c"
                  (bytes_of "a b c") built_world Hlen Hu (or_intror Hm))).
Defined.

Lemma test_lda_ascii_sentence_witness :
  1 ≤ String.length "a b c"
  ∧ ascii_only "a b c" = true
  ∧ dictionary_file trained_world = Some sample_dictionary
  ∧ model_file trained_world = Some sample_model
  ∧ (test_lda (small_config 3) (Some "a b c"%string) trained_world).1 = Ok tt.
Proof.
  assert (Hlen : 1 ≤ String.length "a b c") by (simpl; lia).
  split; [exact Hlen|]. split; [reflexivity|].
  split; [exact trained_world_dictionary|].
  split; [exact trained_world_model|].
  exact (proj1 (proj2 (test_lda_ascii_sentence (small_config 3) "a b c"
                         sample_dictionary sample_model trained_world
                         Hlen eq_refl trained_world_dictionary
                         trained_world_model))).
Defined.

Lemma train_lda_window_bag_witness :
  ids_injective (token2id sample_dictionary)
  ∧ Sorted key_le (window_bow sample_dictionary sample_window)
  ∧ NoDup (window_bow sample_dictionary sample_window).*1.
Proof.
  split; [exact sample_dictionary_injective|].
  exact (proj2 (train_lda_window_bag sample_dictionary sample_window
                  sample_dictionary_injective)).
Defined.

Lemma train_lda_windows_read_witness :
  dictionary_file built_world = Some sample_dictionary
  ∧ 0 < size (token2id sample_dictionary)
  ∧ count_events is_next_window
      (events_of (train_lda (small_config 2)) built_world)
    = min (length (load_windows (corpus built_world)
                                (LDA_WINDOW_SIZE (small_config 2)) true))
          (S (COUNT_EXAMPLES_FOR_LDA (small_config 2))).
Proof.
  split; [exact built_world_dictionary|].
  split; [exact sample_dictionary_nonempty|].
  exact (proj1 (train_lda_windows_read (small_config 2) built_world
                  sample_dictionary built_world_dictionary
           sample_dictionary_nonempty)).
Defined.

Lemma train_lda_drops_remainder_witness :
  dictionary_file built_world = Some sample_dictionary
  ∧ 0 < size (token2id sample_dictionary)
  ∧ 1 ≤ update_every_n_windows (small_config 2)
  ∧ concat (update_batches (events_of (train_lda (small_config 2)) built_world))
    = window_bow sample_dictionary
        <$> take (min (length (load_windows (corpus built_world)
                                 (LDA_WINDOW_SIZE (small_config 2)) true))
                      (S (COUNT_EXAMPLES_FOR_LDA (small_config 2)))
                  - min (length (load_windows (corpus built_world)
                                   (LDA_WINDOW_SIZE (small_config 2)) true))
                        (S (COUNT_EXAMPLES_FOR_LDA (small_config 2)))
                    mod update_every_n_windows (small_config 2))
                 (load_windows (corpus built_world)
                               (LDA_WINDOW_SIZE (small_config 2)) true).
Proof.
  split; [exact built_world_dictionary|].
  split; [exact sample_dictionary_nonempty|]. split; [simpl; lia|].
  exact (train_lda_drops_remainder (small_config 2) built_world
           sample_dictionary built_world_dictionary
           sample_dictionary_nonempty ltac:(simpl; lia)).
Defined.

Lemma train_then_show_topics_witness :
  dictionary_file built_world = Some sample_dictionary
  ∧ 0 < size (token2id sample_dictionary)
  ∧ ∃ m,
      model_file (train_lda (small_config 3) built_world).2 = Some m
      ∧ ((train_lda (small_config 3) ;; show_topics (small_config 3))
           built_world).1 = Ok tt
      ∧ events_of (show_topics (small_config 3))
                  (train_lda (small_config 3) built_world).2
        = [DictLoad; LdaLoad; LdaShowTopics; Print MsgListOfTopics]
          ++ ((λ i, Print (MsgTopic i m))
                <$> seq 0 (LDA_COUNT_TOPICS (small_config 3))).
Proof.
  split; [exact built_world_dictionary|].
  split; [exact sample_dictionary_nonempty|].
  exact (train_then_show_topics (small_config 3) built_world
           sample_dictionary built_world_dictionary
           sample_dictionary_nonempty).
Defined.

Lemma sample_update_message :
  Print (MsgUpdatingAtArticle 1 3)
  ∈ events_of (generate_dictionary (small_config 3)) sample_world.
Proof. vm_compute. repeat constructor. Qed.

Lemma generate_dictionary_update_messages_witness :
  1 ≤ update_every_n_articles (small_config 3)
  ∧ Print (MsgUpdatingAtArticle 1 3)
    ∈ events_of (generate_dictionary (small_config 3)) sample_world
  ∧ (1 + 1) mod update_every_n_articles (small_config 3) = 0.
Proof.
  split; [simpl; lia|]. split; [exact sample_update_message|].
  exact (proj1 (proj2 (generate_dictionary_update_messages (small_config 3)
                         sample_world 1 3 ltac:(simpl; lia)
                         sample_update_message))).
Defined.
